(** * AI_Test_Automation: requirement parser, test generator, test reporter

    A shallow embedding of [src/requirements_parser.py],
    [src/test_generator.py] and [src/executor.py], and the properties of
    the specification that are settled on it.

    Modelling conventions.
    - A Python [str] is a [list ascii].  In the parser and the generator a
      character is read as the code point of the same number (U+0000 to
      U+00FF); [str.lower], [str.strip], and the classes [\s], [\w] and [.]
      of [re] are Python's own tables restricted to that range.  The
      parser is embedded a second time over an arbitrary alphabet (module
      [Unicode]), for what depends on characters beyond that range; over
      U+0000..U+00FF the two embeddings are proved to agree.
    - The message literals of [executor.py] contain characters outside that
      range; they are kept as the UTF-8 bytes of the source literal, and no
      operation of the executor looks inside them.
    - A dictionary with a fixed set of keys is a record whose fields are
      options ([None]: key absent); a dictionary built key by key is an
      association list in insertion order.
    - The clock, the file system and the child processes are explicit: the
      file store is threaded as state, the processes and the clock are
      oracles handed to the functions that call them. *)

From Stdlib Require Import List Ascii String NArith ZArith Bool Arith Lia.
From Stdlib Require Import DecimalString.
From Stdlib Require DecimalZ DecimalPos.
Import ListNotations.

Set Implicit Arguments.

Definition str := list ascii.

Coercion list_ascii_of_string : string >-> list.

Open Scope string_scope.
Open Scope list_scope.

(** ** Python string operations *)

Module PyStr.

Definition code (c : ascii) : N := N_of_ascii c.

Definition between (lo hi n : N) : bool := (lo <=? n)%N && (n <=? hi)%N.

(** [str.isspace] on one character; the same set is [\s] of [re]. *)
Definition isspace (c : ascii) : bool :=
  let n := code c in
  between 9 13 n || between 28 32 n || (n =? 133)%N || (n =? 160)%N.

(** Characters with an upper-case form distinct from their lower-case
    form: A-Z, and U+00C0..U+00DE except the multiplication sign. *)
Definition isupper (c : ascii) : bool :=
  let n := code c in
  between 65 90 n || (between 192 222 n && negb (n =? 215)%N).

Definition lower_char (c : ascii) : ascii :=
  if isupper c then ascii_of_N (code c + 32) else c.

(** [str.isalnum] on one character. *)
Definition isalnum (c : ascii) : bool :=
  let n := code c in
  between 48 57 n || between 65 90 n || between 97 122 n
  || (n =? 170)%N || between 178 179 n || (n =? 181)%N
  || between 185 186 n || between 188 190 n
  || between 192 214 n || between 216 246 n || between 248 255 n.

(** [\w] of [re]: alphanumeric or underscore. *)
Definition isword (c : ascii) : bool := isalnum c || (code c =? 95)%N.

Definition newline : ascii := ascii_of_N 10.

(** [.] of [re] without DOTALL: anything but a line feed. *)
Definition isdot (c : ascii) : bool := negb (code c =? 10)%N.

(** [[^.]]: anything but a full stop. *)
Definition notperiod (c : ascii) : bool := negb (code c =? 46)%N.

(** [s.lower()] *)
Definition lower (s : str) : str := map lower_char s.

Fixpoint lstrip (s : str) : str :=
  match s with
  | c :: t => if isspace c then lstrip t else s
  | [] => []
  end.

Definition rstrip (s : str) : str := rev (lstrip (rev s)).

(** [s.strip()] *)
Definition strip (s : str) : str := rstrip (lstrip s).

Fixpoint str_eqb (a b : str) : bool :=
  match a, b with
  | [], [] => true
  | x :: a', y :: b' => Ascii.eqb x y && str_eqb a' b'
  | _, _ => false
  end.

(** [s.startswith(p)], returning what follows the prefix. *)
Fixpoint strip_prefix (p s : str) : option str :=
  match p with
  | [] => Some s
  | x :: p' =>
      match s with
      | y :: s' => if Ascii.eqb x y then strip_prefix p' s' else None
      | [] => None
      end
  end.

Definition startswith (p s : str) : bool :=
  match strip_prefix p s with Some _ => true | None => false end.

(** [needle in hay] *)
Fixpoint contains (needle hay : str) : bool :=
  startswith needle hay ||
  match hay with
  | [] => false
  | _ :: t => contains needle t
  end.

(** [s.replace(old, new)] for one-character [old] and [new]. *)
Definition replace (old new : ascii) (s : str) : str :=
  map (fun c => if Ascii.eqb c old then new else c) s.

(** [s.split(sep)] for a one-character separator. *)
Fixpoint split (sep : ascii) (s : str) : list str :=
  match s with
  | [] => [[]]
  | c :: t =>
      if Ascii.eqb c sep then [] :: split sep t
      else match split sep t with
           | w :: ws => (c :: w) :: ws
           | [] => [[c]]
           end
  end.

(** [sep.join(parts)] *)
Fixpoint join (sep : str) (parts : list str) : str :=
  match parts with
  | [] => []
  | [p] => p
  | p :: rest => p ++ sep ++ join sep rest
  end.

(** [x in words] for a list of strings. *)
Definition mem (x : str) (words : list str) : bool :=
  existsb (str_eqb x) words.

(** [str(n)] for an integer. *)
Definition str_of_int (n : Z) : str :=
  list_ascii_of_string (NilZero.string_of_int (Z.to_int n)).

End PyStr.

(** ** The fragment of [re] used by the parser

    A backtracking matcher in continuation-passing style, which tries the
    alternatives in the order of Python's engine: the left branch of [|]
    first, the longest repetition first for a greedy quantifier and the
    shortest first for a lazy one.  Quantifiers apply to single-character
    classes only, which is all the patterns of the parser need. *)

Module Re.
Import PyStr.

Inductive regex : Type :=
| Str (lit : str)                       (* a literal string *)
| Cls (p : ascii -> bool)               (* one character of a class *)
| Cat (r1 r2 : regex)                   (* r1 r2 *)
| Alt (r1 r2 : regex)                   (* r1|r2 *)
| Star (greedy : bool) (p : ascii -> bool)   (* p* and p*? *)
| Grp (n : nat) (r : regex)             (* capture group number n *)
| Eos.                                  (* $ *)

(** [p+] and [p+?], as [p p*] and [p p*?]. *)
Definition Plus (greedy : bool) (p : ascii -> bool) : regex :=
  Cat (Cls p) (Star greedy p).

Definition caps := list (nat * str).

Fixpoint group (n : nat) (c : caps) : option str :=
  match c with
  | [] => None
  | (m, v) :: c' => if Nat.eqb m n then Some v else group n c'
  end.

(** Every captured string is made of characters that satisfy [P]. *)
Definition caps_ok (P : ascii -> Prop) (c : caps) : Prop :=
  Forall (fun nv : nat * str => Forall P (snd nv)) c.

(** [m.group(1)], the empty string standing for a group that did not
    take part in the match. *)
Definition group1 (c : caps) : str :=
  match group 1 c with Some g => g | None => [] end.

Section Matcher.
Variable A : Type.

Fixpoint star_greedy (p : ascii -> bool) (k : str -> option A) (s : str)
  : option A :=
  match s with
  | a :: s' =>
      if p a then
        match star_greedy p k s' with
        | Some x => Some x
        | None => k s
        end
      else k s
  | [] => k s
  end.

Fixpoint star_lazy (p : ascii -> bool) (k : str -> option A) (s : str)
  : option A :=
  match k s with
  | Some x => Some x
  | None =>
      match s with
      | a :: s' => if p a then star_lazy p k s' else None
      | [] => None
      end
  end.

(** [$] without MULTILINE: at the end, or before a final line feed. *)
Definition at_eos (s : str) : bool :=
  match s with
  | [] => true
  | [c] => (code c =? 10)%N
  | _ => false
  end.

Fixpoint rmatch (r : regex) (s : str) (c : caps)
  (k : str -> caps -> option A) : option A :=
  match r with
  | Str lit =>
      match strip_prefix lit s with
      | Some s' => k s' c
      | None => None
      end
  | Cls p =>
      match s with
      | a :: s' => if p a then k s' c else None
      | [] => None
      end
  | Cat r1 r2 => rmatch r1 s c (fun s' c' => rmatch r2 s' c' k)
  | Alt r1 r2 =>
      match rmatch r1 s c k with
      | Some x => Some x
      | None => rmatch r2 s c k
      end
  | Star true p => star_greedy p (fun s' => k s' c) s
  | Star false p => star_lazy p (fun s' => k s' c) s
  | Grp n r1 =>
      rmatch r1 s c
        (fun s' c' => k s' ((n, firstn (List.length s - List.length s') s) :: c'))
  | Eos => if at_eos s then k s c else None
  end.
End Matcher.

(** An anchored match at the head of [s]: what is left, and the groups. *)
Definition match_here (r : regex) (s : str) : option (str * caps) :=
  rmatch r s [] (fun s' c => Some (s', c)).

(** [re.search(r, s)]: the leftmost match. *)
Fixpoint search (r : regex) (s : str) : option (str * caps) :=
  match match_here r s with
  | Some m => Some m
  | None =>
      match s with
      | [] => None
      | _ :: t => search r t
      end
  end.

(** [re.search(r, s).group(1)] when there is a match. *)
Definition search_group1 (r : regex) (s : str) : option str :=
  match search r s with
  | Some (_, c) => Some (group1 c)
  | None => None
  end.

(** [re.findall(r, s)] for a pattern with one group, all of whose matches
    consume at least one character: the group of each match, the scan
    resuming where the previous match ended.  [skip] counts the
    characters of the current match still to step over. *)
Fixpoint findall_from (r : regex) (skip : nat) (s : str) : list str :=
  match skip with
  | S n =>
      match s with
      | [] => []
      | _ :: t => findall_from r n t
      end
  | O =>
      match match_here r s with
      | Some (s', c) =>
          group1 c ::
          match s with
          | [] => []
          | _ :: t => findall_from r (List.length s - List.length s' - 1) t
          end
      | None =>
          match s with
          | [] => []
          | _ :: t => findall_from r 0 t
          end
      end
  end.

Definition findall (r : regex) (s : str) : list str := findall_from r 0 s.

End Re.

(** ** requirements_parser.py *)

Module RequirementsParser.
Import PyStr Re.

(** The dictionary built by [parse_requirement]; the generator reads it
    with [dict.get], so a key may be absent. *)
Record requirement : Type := mkRequirement {
  feature : option str;
  conditions : option (list str);
  expected : option str;
  original_text : option str
}.

Definition action_keywords : list str :=
  map list_ascii_of_string
    ["login"; "register"; "validate"; "authenticate"; "create"; "delete";
     "update"; "view"; "display"; "search"]%string.

(** [should\s+(\w+)] *)
Definition should_word_re : regex :=
  Cat (Str "should") (Cat (Plus true isspace) (Grp 1 (Plus true isword))).

(** [(?:\s+and|\s*\.|\s*$)] *)
Definition stop_re : regex :=
  Alt (Cat (Plus true isspace) (Str "and"))
    (Alt (Cat (Star true isspace) (Str "."))
         (Cat (Star true isspace) Eos)).

(** [with\s+([^.]+?)(?:\s+and|\s*\.|\s*$)] *)
Definition with_re : regex :=
  Cat (Str "with")
    (Cat (Plus true isspace) (Cat (Grp 1 (Plus false notperiod)) stop_re)).

(** [using\s+([^.]+?)(?:\s+and|\s*\.|\s*$)] *)
Definition using_re : regex :=
  Cat (Str "using")
    (Cat (Plus true isspace) (Cat (Grp 1 (Plus false notperiod)) stop_re)).

(** [(valid\s+\w+)] *)
Definition valid_re : regex :=
  Grp 1 (Cat (Str "valid") (Cat (Plus true isspace) (Plus true isword))).

(** [(invalid\s+\w+)] *)
Definition invalid_re : regex :=
  Grp 1 (Cat (Str "invalid") (Cat (Plus true isspace) (Plus true isword))).

(** [should\s+(.+?)(?:\s*\.|\s*$)] *)
Definition should_outcome_re : regex :=
  Cat (Str "should")
    (Cat (Plus true isspace)
       (Cat (Grp 1 (Plus false isdot))
          (Alt (Cat (Star true isspace) (Str "."))
               (Cat (Star true isspace) Eos)))).

(** The loop over [self.action_keywords]. *)
Fixpoint first_keyword (keywords : list str) (text : str) : option str :=
  match keywords with
  | [] => None
  | keyword :: rest =>
      if contains keyword text then Some keyword
      else first_keyword rest text
  end.

Definition _extract_feature (text : str) : str :=
  match first_keyword action_keywords text with
  | Some keyword => keyword
  | None =>
      match search_group1 should_word_re text with
      | Some g => g
      | None => "unknown_feature"
      end
  end.

Definition _extract_conditions (text : str) : list str :=
  let conditions :=
    map strip (findall with_re text)
    ++ map strip (findall using_re text)
    ++ findall valid_re text
    ++ findall invalid_re text in
  match conditions with
  | [] => [("no specific conditions" : str)]
  | _ => conditions
  end.

Definition _extract_expected_outcome (text : str) : str :=
  if contains "successful" text then
    "successful " ++ _extract_feature text
  else if contains "failure" text || contains "error" text then
    "failure or error message"
  else
    match search_group1 should_outcome_re text with
    | Some g => strip g
    | None => "system responds appropriately"
    end.

Definition parse_requirement (requirement_text : str) : requirement :=
  let text := strip (lower requirement_text) in
  {| feature := Some (_extract_feature text);
     conditions := Some (_extract_conditions text);
     expected := Some (_extract_expected_outcome text);
     original_text := Some requirement_text |}.

Definition parse_multiple_requirements (requirements_list : list str)
  : list requirement :=
  map parse_requirement requirements_list.

End RequirementsParser.

(** ** test_generator.py *)

Module Generator.
Import PyStr RequirementsParser.

(** The double quote, and the triple quote that delimits a docstring. *)
Definition Q : str := [ascii_of_N 34].
Definition Q3 : str := Q ++ Q ++ Q.
Definition nl : str := [newline].

(** A template is written line by line; every line of the source literal
    ends with a line feed. *)
Definition unlines (ls : list str) : str :=
  List.concat (map (fun l => l ++ nl) ls).

Fixpoint list_eqb (a b : list str) : bool :=
  match a, b with
  | [], [] => true
  | x :: a', y :: b' => str_eqb x y && list_eqb a' b'
  | _, _ => false
  end.

Definition stop_words : list str :=
  map list_ascii_of_string ["and"; "or"; "with"; "using"]%string.

Definition _generate_test_name (feature : str) (conditions : list str)
  : str :=
  let clean_feature := replace "-" "_" (replace " " "_" feature) in
  let condition_suffix :=
    match conditions with
    | [] => []
    | first :: _ =>
        if negb (list_eqb conditions [("no specific conditions" : str)])
        then
          let first_condition := replace "-" "_" (replace " " "_" first) in
          let meaningful_words :=
            filter (fun word => negb (mem word stop_words))
              (split "_" first_condition) in
          match meaningful_words with
          | [] => []
          | _ => "_" ++ join "_" (firstn 2 meaningful_words)
          end
        else []
    end in
  "test_" ++ clean_feature ++ condition_suffix.

(** The five templates, each the f-string of the source line by line
    (a doubled brace of the f-string is one brace of the output). *)
Definition _generate_login_test (test_name : str) (conditions : list str)
  (expected original_text : str) : str :=
  unlines
    [ "def " ++ test_name ++ "():";
      "    " ++ Q3;
      "    Test case generated from requirement:" : str;
      "    " ++ original_text;
      [];
      "    Feature: login" : str;
      "    Conditions: " ++ join ", " conditions;
      "    Expected: " ++ expected;
      "    " ++ Q3;
      "    # Arrange" : str;
      "    username = " ++ Q ++ "valid_user" ++ Q;
      "    password = " ++ Q ++ "valid_password" ++ Q;
      [];
      "    # Act" : str;
      "    result = login_system(username, password)" : str;
      [];
      "    # Assert" : str;
      "    assert result is not None, " ++ Q
        ++ "Login should return a result" ++ Q;
      "    assert result.get('status') == 'success', " ++ Q
        ++ "Login should be successful" ++ Q;
      "    assert 'user_id' in result, " ++ Q
        ++ "Login result should contain user_id" ++ Q;
      [];
      "def login_system(username: str, password: str) -> dict:" : str;
      "    " ++ Q3
        ++ "Mock login function - replace with actual implementation"
        ++ Q3;
      "    if username and password:" : str;
      "        return {" ++ Q ++ "status" ++ Q ++ ": " ++ Q ++ "success" ++ Q
        ++ ", " ++ Q ++ "user_id" ++ Q ++ ": " ++ Q ++ "12345" ++ Q ++ "}";
      "    return {" ++ Q ++ "status" ++ Q ++ ": " ++ Q ++ "failure" ++ Q
        ++ ", " ++ Q ++ "error" ++ Q ++ ": " ++ Q ++ "Invalid credentials"
        ++ Q ++ "}" ].

Definition _generate_register_test (test_name : str)
  (conditions : list str) (expected original_text : str) : str :=
  unlines
    [ "def " ++ test_name ++ "():";
      "    " ++ Q3;
      "    Test case generated from requirement:" : str;
      "    " ++ original_text;
      [];
      "    Feature: register/registration" : str;
      "    Conditions: " ++ join ", " conditions;
      "    Expected: " ++ expected;
      "    " ++ Q3;
      "    # Arrange" : str;
      "    user_data = {" : str;
      "        " ++ Q ++ "username" ++ Q ++ ": " ++ Q ++ "new_user" ++ Q
        ++ ",";
      "        " ++ Q ++ "email" ++ Q ++ ": " ++ Q ++ "user@example.com"
        ++ Q ++ ",";
      "        " ++ Q ++ "password" ++ Q ++ ": " ++ Q ++ "secure_password"
        ++ Q;
      "    }" : str;
      [];
      "    # Act" : str;
      "    result = register_user(user_data)" : str;
      [];
      "    # Assert" : str;
      "    assert result is not None, " ++ Q
        ++ "Registration should return a result" ++ Q;
      "    assert result.get('status') == 'success', " ++ Q
        ++ "Registration should be successful" ++ Q;
      "    assert 'user_id' in result, " ++ Q
        ++ "Registration result should contain user_id" ++ Q;
      [];
      "def register_user(user_data: dict) -> dict:" : str;
      "    " ++ Q3
        ++ "Mock registration function - replace with actual implementation"
        ++ Q3;
      "    if user_data.get('email') and user_data.get('password'):" : str;
      "        return {" ++ Q ++ "status" ++ Q ++ ": " ++ Q ++ "success" ++ Q
        ++ ", " ++ Q ++ "user_id" ++ Q ++ ": " ++ Q ++ "67890" ++ Q ++ "}";
      "    return {" ++ Q ++ "status" ++ Q ++ ": " ++ Q ++ "failure" ++ Q
        ++ ", " ++ Q ++ "error" ++ Q ++ ": " ++ Q ++ "Invalid user data"
        ++ Q ++ "}" ].

Definition _generate_validation_test (test_name : str)
  (conditions : list str) (expected original_text : str) : str :=
  unlines
    [ "def " ++ test_name ++ "():";
      "    " ++ Q3;
      "    Test case generated from requirement:" : str;
      "    " ++ original_text;
      [];
      "    Feature: validate/validation" : str;
      "    Conditions: " ++ join ", " conditions;
      "    Expected: " ++ expected;
      "    " ++ Q3;
      "    # Arrange" : str;
      "    test_data = " ++ Q ++ "sample_input" ++ Q;
      [];
      "    # Act" : str;
      "    result = validate_input(test_data)" : str;
      [];
      "    # Assert" : str;
      "    assert result is not None, " ++ Q
        ++ "Validation should return a result" ++ Q;
      "    if " ++ Q ++ "valid" ++ Q ++ " in " ++ Q ++ expected ++ Q ++ ":";
      "        assert result.get('is_valid') is True, " ++ Q
        ++ "Input should be valid" ++ Q;
      "    else:" : str;
      "        assert result.get('is_valid') is False, " ++ Q
        ++ "Input should be invalid" ++ Q;
      [];
      "def validate_input(data: str) -> dict:" : str;
      "    " ++ Q3
        ++ "Mock validation function - replace with actual implementation"
        ++ Q3;
      "    if data and len(data) > 0:" : str;
      "        return {" ++ Q ++ "is_valid" ++ Q ++ ": True, " ++ Q
        ++ "message" ++ Q ++ ": " ++ Q ++ "Valid input" ++ Q ++ "}";
      "    return {" ++ Q ++ "is_valid" ++ Q ++ ": False, " ++ Q
        ++ "message" ++ Q ++ ": " ++ Q ++ "Invalid input" ++ Q ++ "}" ].

Definition _generate_search_test (test_name : str) (conditions : list str)
  (expected original_text : str) : str :=
  unlines
    [ "def " ++ test_name ++ "():";
      "    " ++ Q3;
      "    Test case generated from requirement:" : str;
      "    " ++ original_text;
      [];
      "    Feature: search" : str;
      "    Conditions: " ++ join ", " conditions;
      "    Expected: " ++ expected;
      "    " ++ Q3;
      "    # Arrange" : str;
      "    search_query = " ++ Q ++ "test query" ++ Q;
      [];
      "    # Act" : str;
      "    results = search_function(search_query)" : str;
      [];
      "    # Assert" : str;
      "    assert results is not None, " ++ Q
        ++ "Search should return results" ++ Q;
      "    assert isinstance(results, list), " ++ Q
        ++ "Search results should be a list" ++ Q;
      "    if " ++ Q ++ "relevant" ++ Q ++ " in " ++ Q ++ expected ++ Q
        ++ ":";
      "        assert len(results) > 0, " ++ Q
        ++ "Search should return relevant results" ++ Q;
      [];
      "def search_function(query: str) -> list:" : str;
      "    " ++ Q3
        ++ "Mock search function - replace with actual implementation"
        ++ Q3;
      "    if query:" : str;
      "        return [{" ++ Q ++ "title" ++ Q ++ ": " ++ Q ++ "Result 1"
        ++ Q ++ ", " ++ Q ++ "relevance" ++ Q ++ ": 0.9}]";
      "    return []" : str ].

Definition _generate_generic_test (test_name feature : str)
  (conditions : list str) (expected original_text : str) : str :=
  unlines
    [ "def " ++ test_name ++ "():";
      "    " ++ Q3;
      "    Test case generated from requirement:" : str;
      "    " ++ original_text;
      [];
      "    Feature: " ++ feature;
      "    Conditions: " ++ join ", " conditions;
      "    Expected: " ++ expected;
      "    " ++ Q3;
      "    # Arrange" : str;
      "    # TODO: Set up test data based on your specific feature" : str;
      "    test_input = " ++ Q ++ "sample_input" ++ Q;
      [];
      "    # Act" : str;
      "    # TODO: Replace with actual function call for '" ++ feature
        ++ "'";
      "    result = " ++ feature ++ "_function(test_input)";
      [];
      "    # Assert" : str;
      "    assert result is not None, f" ++ Q ++ feature
        ++ " should return a result" ++ Q;
      "    # TODO: Add specific assertions based on expected outcome: "
        ++ expected;
      [];
      "def " ++ feature ++ "_function(input_data):";
      "    " ++ Q3 ++ "Mock function for " ++ feature
        ++ " - replace with actual implementation" ++ Q3;
      "    # TODO: Implement actual " ++ feature ++ " logic";
      "    return {" ++ Q ++ "status" ++ Q ++ ": " ++ Q ++ "success" ++ Q
        ++ ", " ++ Q ++ "data" ++ Q ++ ": input_data}" ].

Definition _generate_test_code (test_name feature : str)
  (conditions : list str) (expected original_text : str) : str :=
  if str_eqb feature "login" then
    _generate_login_test test_name conditions expected original_text
  else if str_eqb feature "register" || str_eqb feature "registration" then
    _generate_register_test test_name conditions expected original_text
  else if str_eqb feature "validate" || str_eqb feature "validation" then
    _generate_validation_test test_name conditions expected original_text
  else if str_eqb feature "search" then
    _generate_search_test test_name conditions expected original_text
  else
    _generate_generic_test test_name feature conditions expected
      original_text.

(** [requirement.get(key, default)] *)
Definition get {A : Type} (field : option A) (default : A) : A :=
  match field with Some v => v | None => default end.

Definition generate_test_from_requirement (requirement : requirement)
  : str :=
  let feature := get requirement.(feature) ("unknown" : str) in
  let conditions := get requirement.(conditions) [] in
  let expected := get requirement.(expected) ("success" : str) in
  let original_text := get requirement.(original_text) [] in
  let test_name := _generate_test_name feature conditions in
  _generate_test_code test_name feature conditions expected original_text.

(** *** The world of the generator: a clock and a file store *)

(** The file store maps a path to the content last written to it. *)
Definition store := list (str * str).

Fixpoint store_get (path : str) (fs : store) : option str :=
  match fs with
  | [] => None
  | (p, content) :: fs' =>
      if str_eqb p path then Some content else store_get path fs'
  end.

(** [open(path, 'w').write(content)]: replaces the file, or creates it. *)
Fixpoint store_write (path content : str) (fs : store) : store :=
  match fs with
  | [] => [(path, content)]
  | (p, old) :: fs' =>
      if str_eqb p path then (p, content) :: fs'
      else (p, old) :: store_write path content fs'
  end.

Record world : Type := mkWorld {
  files : store;
  ticks : nat      (* how many times the clock has been read *)
}.

(** What the generator lets through: [open(path, 'w')] raised (no such
    directory, a name that the file system refuses, no permission). *)
Inductive io_error : Type :=
| OpenFailed (path : str).

(** A computation that reads the clock and writes files, and returns or
    raises; what it did before raising stays done. *)
Definition IO (A : Type) : Type := world -> (io_error + A) * world.

Definition ret {A : Type} (x : A) : IO A := fun w => (inr x, w).

Definition raise {A : Type} (e : io_error) : IO A := fun w => (inl e, w).

Definition bind {A B : Type} (m : IO A) (f : A -> IO B) : IO B :=
  fun w =>
    match m w with
    | (inr x, w') => f x w'
    | (inl e, w') => (inl e, w')
    end.

Local Notation "x <- m ;; k" := (bind m (fun x => k))
  (at level 61, m at next level, right associativity).

(** [os.path.join(a, b)] of [posixpath]. *)
Definition endswith_sep (path : str) : bool :=
  match rev path with
  | c :: _ => Ascii.eqb c "/"
  | [] => false
  end.

Definition path_join (a b : str) : str :=
  if startswith "/" b then b
  else if match a with [] => true | _ => endswith_sep a end then a ++ b
  else a ++ "/" ++ b.

(** The instance: [self.output_dir]. *)
Record generator : Type := mkGenerator { output_dir : str }.

(** A dictionary from feature to the requirements of that feature, in
    insertion order. *)
Definition groups := list (str * list requirement).

Fixpoint dict_mem (key : str) (d : groups) : bool :=
  match d with
  | [] => false
  | (k, _) :: d' => str_eqb k key || dict_mem key d'
  end.

(** [d[key] = v] *)
Fixpoint dict_set (key : str) (v : list requirement) (d : groups)
  : groups :=
  match d with
  | [] => [(key, v)]
  | (k, old) :: d' =>
      if str_eqb k key then (k, v) :: d'
      else (k, old) :: dict_set key v d'
  end.

(** [d[key].append(req)]; [key] is present wherever the source does it. *)
Fixpoint dict_append (key : str) (req : requirement) (d : groups)
  : groups :=
  match d with
  | [] => []
  | (k, reqs) :: d' =>
      if str_eqb k key then (k, reqs ++ [req]) :: d'
      else (k, reqs) :: dict_append key req d'
  end.

(** The header of a generated file: the f-string of the source, line by
    line, with the time of creation and the number of test cases. *)
Definition file_header (created : str) (count : nat) : str :=
  unlines
    [ Q3;
      "Generated Test File" : str;
      "Created on: " ++ created;
      "Number of test cases: " ++ str_of_int (Z.of_nat count);
      [];
      "This file was automatically generated from structured requirements."
        : str;
      "Modify as needed for your specific implementation." : str;
      Q3;
      [];
      "import pytest" : str;
      "from typing import Dict, List, Optional" : str;
      [] ].

Section Surroundings.

(** [datetime.now().strftime(fmt)] at the n-th reading of the clock. *)
Variable strftime_now : nat -> str -> str.

(** Whether [open(path, 'w')] succeeds, which the file system decides. *)
Variable can_open : str -> bool.

Definition now_strftime (fmt : str) : IO str :=
  fun w => (inr (strftime_now w.(ticks) fmt),
            {| files := w.(files); ticks := S w.(ticks) |}).

(** [with open(path, 'w', encoding='utf-8') as f: f.write(content)] *)
Definition write_file (path content : str) : IO unit :=
  fun w =>
    if can_open path
    then (inr tt, {| files := store_write path content w.(files);
                     ticks := w.(ticks) |})
    else (inl (OpenFailed path), w).

Definition generate_test_file (self : generator)
  (requirements : list requirement) (filename : option str) : IO str :=
  filename <-
    match filename with
    | None =>
        timestamp <- now_strftime "%Y%m%d_%H%M%S" ;;
        ret ("test_generated_" ++ timestamp ++ ".py")
    | Some name => ret name
    end ;;
  created <- now_strftime "%Y-%m-%d %H:%M:%S" ;;
  let header := file_header created (List.length requirements) in
  let test_cases := map generate_test_from_requirement requirements in
  let full_content := header ++ join (nl ++ nl) test_cases in
  let filepath := path_join self.(output_dir) filename in
  _ <- write_file filepath full_content ;;
  ret full_content.

(** The grouping loop of [generate_multiple_files]. *)
Definition group_by_feature (requirements : list requirement) : groups :=
  fold_left
    (fun feature_groups req =>
       let feature := get req.(feature) ("unknown" : str) in
       let feature_groups :=
         if negb (dict_mem feature feature_groups)
         then dict_set feature [] feature_groups
         else feature_groups in
       dict_append feature req feature_groups)
    requirements [].

(** The loop over [feature_groups.items()]. *)
Fixpoint generate_group_files (self : generator) (items : groups)
  (generated_files : list str) : IO (list str) :=
  match items with
  | [] => ret generated_files
  | (feature, reqs) :: rest =>
      let filename := "test_" ++ feature ++ ".py" in
      _ <- generate_test_file self reqs (Some filename) ;;
      let filepath := path_join self.(output_dir) filename in
      generate_group_files self rest (generated_files ++ [filepath])
  end.

Definition generate_multiple_files (self : generator)
  (requirements : list requirement) : IO (list str) :=
  let feature_groups := group_by_feature requirements in
  generate_group_files self feature_groups [].

End Surroundings.

End Generator.

(** ** executor.py *)

Module TestReporter.
Import PyStr.
Import Generator (path_join).

(** What a call can raise.  [except Exception] catches the first two
    ([subprocess.TimeoutExpired] is a subclass of [Exception]); the third
    stands for [KeyboardInterrupt] and [SystemExit], which it does not. *)
Inductive exn : Type :=
| TimeoutExpired (msg : str)
| OtherException (msg : str)
| NonException.

(** A call that returns or raises. *)
Definition py (A : Type) : Type := (exn + A)%type.

Definition ret {A : Type} (x : A) : py A := inr x.
Definition raise {A : Type} (e : exn) : py A := inl e.

Definition bind {A B : Type} (m : py A) (f : A -> py B) : py B :=
  match m with
  | inl e => inl e
  | inr x => f x
  end.

Local Notation "x <- m ;; k" := (bind m (fun x => k))
  (at level 61, m at next level, right associativity).

(** [try: body  except ...: handler] *)
Definition try_except {A : Type} (body : py A) (handler : exn -> py A)
  : py A :=
  match body with
  | inl e => handler e
  | inr x => inr x
  end.

(** A document returned by [json.load]; the reporter stores it without
    looking inside, so it is kept as its text. *)
Definition json : Type := str.

(** The values stored in a result dictionary. *)
Inductive value : Type :=
| VNone
| VBool (b : bool)
| VInt (n : Z)
| VStr (s : str)
| VJson (j : json).

(** A result dictionary, in insertion order. *)
Definition dict := list (str * value).

Fixpoint dict_get (key : str) (d : dict) : option value :=
  match d with
  | [] => None
  | (k, v) :: d' => if str_eqb k key then Some v else dict_get key d'
  end.

(** [subprocess.CompletedProcess] *)
Record completed : Type := mkCompleted {
  returncode : Z;
  stdout : str;
  stderr : str
}.

(** What the reporter asks of its surroundings. *)
Record env : Type := mkEnv {
  (* datetime.now().strftime(fmt) *)
  now_strftime : str -> str;
  (* datetime.now().isoformat() *)
  now_isoformat : str;
  (* subprocess.run(cmd, capture_output=True, text=True, timeout=t) *)
  subprocess_run : list str -> option Z -> py completed;
  (* os.path.exists(path), once the child process is over *)
  path_exists : str -> bool;
  (* with open(path, 'r') as f: json.load(f) *)
  load_json : str -> py json
}.

Record reporter : Type := mkReporter {
  test_dir : str;
  reports_dir : str
}.

Definition _get_status_message (exit_code : Z) : str :=
  if (exit_code =? 0)%Z then "🎉 All tests passed!"
  else if (exit_code =? 1)%Z then "❌ Some tests failed"
  else if (exit_code =? 5)%Z then "⚠️ No tests collected"
  else "❓ Unknown exit code: " ++ str_of_int exit_code.

(** The two handlers that close the [try] of the HTML and Allure runs. *)
Definition on_timeout_or_exception (e : exn) : py dict :=
  match e with
  | TimeoutExpired _ =>
      ret [("error" : str, VStr "Test execution timed out");
           ("success" : str, VBool false)]
  | OtherException msg =>
      ret [("error" : str, VStr msg); ("success" : str, VBool false)]
  | NonException => raise e
  end.

(** The single handler of the JSON run: [except Exception as e], with
    [str(e)] the message of the exception. *)
Definition on_exception (e : exn) : py dict :=
  match e with
  | TimeoutExpired msg | OtherException msg =>
      ret [("error" : str, VStr msg); ("success" : str, VBool false)]
  | NonException => raise e
  end.

Definition pytest_cmd (self : reporter) (test_files : option (list str))
  (options : list str) : list str :=
  match test_files with
  | None => ["python" : str; "-m" : str; "pytest" : str]
            ++ [self.(test_dir)] ++ options
  | Some files => ["python" : str; "-m" : str; "pytest" : str]
                  ++ files ++ options
  end.

Definition run_tests_with_html_report (self : reporter)
  (test_files : option (list str)) (e : env) : py dict :=
  let timestamp := e.(now_strftime) "%Y%m%d_%H%M%S" in
  let html_report_path :=
    path_join self.(reports_dir) ("test_report_" ++ timestamp ++ ".html") in
  let cmd :=
    pytest_cmd self test_files
      [ "--html=" ++ html_report_path; "--self-contained-html" : str;
        "-v" : str; "--tb=short" : str ] in
  try_except
    (result <- e.(subprocess_run) cmd (Some 300%Z) ;;
     ret [ ("timestamp" : str, VStr e.(now_isoformat));
           ("exit_code" : str, VInt result.(returncode));
           ("success" : str, VBool (result.(returncode) =? 0)%Z);
           ("html_report_path" : str,
             if e.(path_exists) html_report_path
             then VStr html_report_path else VNone);
           ("stdout" : str, VStr result.(stdout));
           ("stderr" : str, VStr result.(stderr));
           ("report_type" : str, VStr "HTML");
           ("message" : str,
             VStr (_get_status_message result.(returncode))) ])
    on_timeout_or_exception.

Definition run_tests_with_allure_report (self : reporter)
  (test_files : option (list str)) (e : env) : py dict :=
  let timestamp := e.(now_strftime) "%Y%m%d_%H%M%S" in
  let allure_results_dir :=
    path_join self.(reports_dir) ("allure-results-" ++ timestamp) in
  let allure_report_dir :=
    path_join self.(reports_dir) ("allure-report-" ++ timestamp) in
  let cmd :=
    pytest_cmd self test_files
      [ "--alluredir=" ++ allure_results_dir; "--clean-alluredir" : str;
        "-v" : str ] in
  try_except
    (result <- e.(subprocess_run) cmd (Some 300%Z) ;;
     let allure_cmd :=
       [ "allure" : str; "generate" : str; allure_results_dir; "-o" : str;
         allure_report_dir; "--clean" : str ] in
     allure_result <- e.(subprocess_run) allure_cmd None ;;
     ret [ ("timestamp" : str, VStr e.(now_isoformat));
           ("exit_code" : str, VInt result.(returncode));
           ("success" : str, VBool (result.(returncode) =? 0)%Z);
           ("allure_results_dir" : str, VStr allure_results_dir);
           ("allure_report_dir" : str,
             if (allure_result.(returncode) =? 0)%Z
             then VStr allure_report_dir else VNone);
           ("stdout" : str, VStr result.(stdout));
           ("stderr" : str, VStr result.(stderr));
           ("allure_generation_success" : str,
             VBool (allure_result.(returncode) =? 0)%Z);
           ("report_type" : str, VStr "Allure");
           ("message" : str,
             VStr (_get_status_message result.(returncode))) ])
    on_timeout_or_exception.

Definition run_tests_with_json_report (self : reporter)
  (test_files : option (list str)) (e : env) : py dict :=
  let timestamp := e.(now_strftime) "%Y%m%d_%H%M%S" in
  let json_report_path :=
    path_join self.(reports_dir) ("test_report_" ++ timestamp ++ ".json") in
  let cmd :=
    pytest_cmd self test_files
      [ "--json-report=" ++ json_report_path;
        "--json-report-summary" : str; "-v" : str ] in
  try_except
    (result <- e.(subprocess_run) cmd (Some 300%Z) ;;
     json_data <-
       (if e.(path_exists) json_report_path
        then (j <- e.(load_json) json_report_path ;; ret (VJson j))
        else ret VNone) ;;
     ret [ ("timestamp" : str, VStr e.(now_isoformat));
           ("exit_code" : str, VInt result.(returncode));
           ("success" : str, VBool (result.(returncode) =? 0)%Z);
           ("json_report_path" : str,
             if e.(path_exists) json_report_path
             then VStr json_report_path else VNone);
           ("json_data" : str, json_data);
           ("stdout" : str, VStr result.(stdout));
           ("stderr" : str, VStr result.(stderr));
           ("report_type" : str, VStr "JSON");
           ("message" : str,
             VStr (_get_status_message result.(returncode))) ])
    on_exception.

End TestReporter.

(** ** requirements_parser.py: reading requirements from a file *)

Module RequirementsFile.
Import PyStr.

Definition CR : ascii := ascii_of_N 13.

(** What reading in text mode does to line ends: a carriage return, with
    or without a line feed after it, becomes one line feed. *)
Fixpoint universal_newlines (s : str) : str :=
  match s with
  | [] => []
  | c :: t =>
      if Ascii.eqb c CR then
        match t with
        | d :: t' =>
            if Ascii.eqb d newline then newline :: universal_newlines t'
            else newline :: universal_newlines t
        | [] => [newline]
        end
      else c :: universal_newlines t
  end.

(** [for line in f]: the text cut after every line feed, the line feed
    kept at the end of its line. *)
Fixpoint lines_of (s : str) : list str :=
  match s with
  | [] => []
  | c :: t =>
      if Ascii.eqb c newline then [c] :: lines_of t
      else match lines_of t with
           | [] => [[c]]
           | l :: ls => (c :: l) :: ls
           end
  end.

(** [[line.strip() for line in f if line.strip()]] *)
Definition stripped_lines (lines : list str) : list str :=
  map strip
    (filter (fun line => match strip line with [] => false | _ => true end)
       lines).

(** [load_requirements_from_file]; [None] when [open] raises because
    there is no such file.  The store holds the decoded text of each
    file. *)
Definition load_requirements_from_file (fs : Generator.store)
  (filename : str) : option (list str) :=
  match Generator.store_get filename fs with
  | None => None
  | Some content => Some (stripped_lines (lines_of (universal_newlines content)))
  end.

End RequirementsFile.

(** ** executor.py: the console report and the suggestions *)

Module ConsoleReport.
Import PyStr TestReporter.

Section Documents.

(** What Python makes of a parsed JSON document: its truth value, its
    text when formatted, and what the summary block of the report does
    with it: raise, add nothing (the document is empty or has no
    "summary"), or add the five lines of the summary. *)
Variable json_truthy : json -> bool.
Variable json_format : json -> str.
Variable json_summary : json -> py (option (list str)).

(** [bool(v)] *)
Definition truthy (v : option value) : bool :=
  match v with
  | None | Some VNone => false
  | Some (VBool b) => b
  | Some (VInt n) => negb (n =? 0)%Z
  | Some (VStr s) => match s with [] => false | _ => true end
  | Some (VJson j) => json_truthy j
  end.

(** [f"{v}"] *)
Definition format_value (v : value) : str :=
  match v with
  | VNone => "None"
  | VBool true => "True"
  | VBool false => "False"
  | VInt n => str_of_int n
  | VStr s => s
  | VJson j => json_format j
  end.

(** [f"{results.get(key, default)}"] *)
Definition format_get (key default : str) (results : dict) : str :=
  match dict_get key results with
  | Some v => format_value v
  | None => default
  end.

(** The line added for a key whose value is truthy. *)
Definition path_line (key before after : str) (results : dict)
  : list str :=
  if truthy (dict_get key results)
  then [before ++ format_get key [] results ++ after]
  else [].

(** The block [if json_data and 'summary' in json_data: ...].  Where
    Python raises a [TypeError] (a membership test on a number, an index
    by a string into a string), the exception is recorded under the name
    of its class; the text of its message is not modelled. *)
Definition summary_block (results : dict) : py (list str) :=
  match dict_get "json_data" results with
  | None | Some VNone => ret []
  | Some (VBool b) =>
      if b then raise (OtherException "TypeError") else ret []
  | Some (VInt n) =>
      if (n =? 0)%Z then ret [] else raise (OtherException "TypeError")
  | Some (VStr s) =>
      match s with
      | [] => ret []
      | _ => if contains "summary" s
             then raise (OtherException "TypeError") else ret []
      end
  | Some (VJson j) =>
      bind (json_summary j)
        (fun lines =>
           match lines with
           | Some ls => ret ([[]; ("📋 TEST SUMMARY:" : str)] ++ ls)
           | None => ret []
           end)
  end.

Definition generate_console_report (results : dict) : py str :=
  let report_lines :=
    [ "🚀 " ++ repeat "="%char 60;
      "   AI TEST AUTOMATION - EXECUTION REPORT" : str;
      repeat "="%char 64;
      "⏰ Timestamp: " ++ format_get "timestamp" "N/A" results;
      "📊 Report Type: " ++ format_get "report_type" "Console" results;
      "✅ Success: "
        ++ (if truthy (dict_get "success" results) then "Yes" else "No");
      "🔢 Exit Code: " ++ format_get "exit_code" "N/A" results;
      [] ] in
  let report_lines :=
    report_lines ++ path_line "html_report_path" "📄 HTML Report: " []
                      results in
  let report_lines :=
    report_lines ++ path_line "allure_report_dir" "📈 Allure Report: "
                      "/index.html" results in
  let report_lines :=
    report_lines ++ path_line "json_report_path" "📝 JSON Report: " []
                      results in
  bind (summary_block results)
    (fun summary =>
       let report_lines := report_lines ++ summary in
       let report_lines :=
         if truthy (dict_get "message" results)
         then report_lines
              ++ [[]; "💬 Status: " ++ format_get "message" [] results]
         else report_lines in
       let report_lines := report_lines ++ [[]; repeat "="%char 64] in
       ret (join [newline] report_lines)).

(** [results.get('report_type') == tag] *)
Definition report_type_is (tag : str) (results : dict) : bool :=
  match dict_get "report_type" results with
  | Some (VStr s) => str_eqb s tag
  | _ => false
  end.

Definition suggest_improvements (results : dict) : list str :=
  let suggestions :=
    if truthy (dict_get "success" results) then
      [ "🎉 Great job! All tests are passing" : str;
        "💡 Consider adding more edge cases" : str;
        "🔍 Review code coverage reports" : str;
        "📈 Monitor test performance trends" : str ]
    else
      [ "🔧 Review failed tests and fix issues" : str;
        "📝 Check test data and assertions" : str;
        "🐛 Look for common patterns in failures" : str;
        "🚀 Consider test parallelization for faster feedback" : str ] in
  if report_type_is "HTML" results then
    suggestions ++ [("📄 Share HTML report with team members" : str)]
  else if report_type_is "Allure" results then
    suggestions
    ++ [("📈 Use Allure's advanced features like test history" : str)]
  else suggestions.

End Documents.

End ConsoleReport.

(** ** requirements_parser.py over any alphabet

    [parse_requirement] and what it calls once more, for strings whose
    characters are not confined to U+0000..U+00FF.  The characters and
    Python's tables on them are the fields of an alphabet: [str.isspace]
    (also the set [\s] of [re]), [str.isalnum] (with the underscore, the
    set [\w]), [str.isupper] on one character, and [str.lower], which acts
    on the string as a whole since Python does not lower-case every
    character by itself (U+0130 becomes two characters, U+03A3 depends on
    what follows it).  The characters of the literals of the source come
    from [of_ascii]. *)

Module Unicode.
Local Unset Implicit Arguments.

Record alphabet : Type := mkAlphabet {
  char : Type;
  char_eq_dec : forall x y : char, {x = y} + {x <> y};
  of_ascii : ascii -> char;
  isspace : char -> bool;
  isalnum : char -> bool;
  isupper : char -> bool;
  lower : list char -> list char
}.

Section Parser.
Variable A : alphabet.

Local Abbreviation ustr := (list (char A)).

Definition char_eqb (x y : char A) : bool :=
  if char_eq_dec A x y then true else false.

(** A string literal of the source. *)
Definition lit (s : string) : ustr :=
  map (of_ascii A) (list_ascii_of_string s).

(** [\w] of [re]: alphanumeric or underscore. *)
Definition isword (c : char A) : bool :=
  isalnum A c || char_eqb c (of_ascii A "_"%char).

(** [.] of [re] without DOTALL: anything but a line feed. *)
Definition isdot (c : char A) : bool :=
  negb (char_eqb c (of_ascii A (ascii_of_N 10))).

(** [[^.]]: anything but a full stop. *)
Definition notperiod (c : char A) : bool :=
  negb (char_eqb c (of_ascii A "."%char)).

Fixpoint lstrip (s : ustr) : ustr :=
  match s with
  | c :: t => if isspace A c then lstrip t else s
  | [] => []
  end.

Definition rstrip (s : ustr) : ustr := rev (lstrip (rev s)).

(** [s.strip()] *)
Definition strip (s : ustr) : ustr := rstrip (lstrip s).

(** [s.startswith(p)], returning what follows the prefix. *)
Fixpoint strip_prefix (p s : ustr) : option ustr :=
  match p with
  | [] => Some s
  | x :: p' =>
      match s with
      | y :: s' => if char_eqb x y then strip_prefix p' s' else None
      | [] => None
      end
  end.

Definition startswith (p s : ustr) : bool :=
  match strip_prefix p s with Some _ => true | None => false end.

(** [needle in hay] *)
Fixpoint contains (needle hay : ustr) : bool :=
  startswith needle hay ||
  match hay with
  | [] => false
  | _ :: t => contains needle t
  end.

(** The fragment of [re] used by the parser, as in [Re]. *)
Inductive regex : Type :=
| Str (lit : ustr)
| Cls (p : char A -> bool)
| Cat (r1 r2 : regex)
| Alt (r1 r2 : regex)
| Star (greedy : bool) (p : char A -> bool)
| Grp (n : nat) (r : regex)
| Eos.

Definition Plus (greedy : bool) (p : char A -> bool) : regex :=
  Cat (Cls p) (Star greedy p).

Definition caps := list (nat * ustr).

Fixpoint group (n : nat) (c : caps) : option ustr :=
  match c with
  | [] => None
  | (m, v) :: c' => if Nat.eqb m n then Some v else group n c'
  end.

Definition group1 (c : caps) : ustr :=
  match group 1 c with Some g => g | None => [] end.

(** Every captured string is made of characters that satisfy [P]. *)
Definition caps_ok (P : char A -> Prop) (c : caps) : Prop :=
  Forall (fun nv : nat * ustr => Forall P (snd nv)) c.

Fixpoint star_greedy {R : Type} (p : char A -> bool) (k : ustr -> option R)
  (s : ustr) : option R :=
  match s with
  | a :: s' =>
      if p a then
        match star_greedy p k s' with
        | Some x => Some x
        | None => k s
        end
      else k s
  | [] => k s
  end.

Fixpoint star_lazy {R : Type} (p : char A -> bool) (k : ustr -> option R)
  (s : ustr) : option R :=
  match k s with
  | Some x => Some x
  | None =>
      match s with
      | a :: s' => if p a then star_lazy p k s' else None
      | [] => None
      end
  end.

(** [$] without MULTILINE: at the end, or before a final line feed. *)
Definition at_eos (s : ustr) : bool :=
  match s with
  | [] => true
  | [c] => char_eqb c (of_ascii A (ascii_of_N 10))
  | _ => false
  end.

Fixpoint rmatch {R : Type} (r : regex) (s : ustr) (c : caps)
  (k : ustr -> caps -> option R) : option R :=
  match r with
  | Str lit =>
      match strip_prefix lit s with
      | Some s' => k s' c
      | None => None
      end
  | Cls p =>
      match s with
      | a :: s' => if p a then k s' c else None
      | [] => None
      end
  | Cat r1 r2 => rmatch r1 s c (fun s' c' => rmatch r2 s' c' k)
  | Alt r1 r2 =>
      match rmatch r1 s c k with
      | Some x => Some x
      | None => rmatch r2 s c k
      end
  | Star true p => star_greedy p (fun s' => k s' c) s
  | Star false p => star_lazy p (fun s' => k s' c) s
  | Grp n r1 =>
      rmatch r1 s c
        (fun s' c' =>
           k s' ((n, firstn (List.length s - List.length s') s) :: c'))
  | Eos => if at_eos s then k s c else None
  end.

Definition match_here (r : regex) (s : ustr) : option (ustr * caps) :=
  rmatch r s [] (fun s' c => Some (s', c)).

(** [re.search(r, s)]: the leftmost match. *)
Fixpoint search (r : regex) (s : ustr) : option (ustr * caps) :=
  match match_here r s with
  | Some m => Some m
  | None =>
      match s with
      | [] => None
      | _ :: t => search r t
      end
  end.

Definition search_group1 (r : regex) (s : ustr) : option ustr :=
  match search r s with
  | Some (_, c) => Some (group1 c)
  | None => None
  end.

(** [re.findall(r, s)] for a pattern with one group, all of whose matches
    consume at least one character. *)
Fixpoint findall_from (r : regex) (skip : nat) (s : ustr) : list ustr :=
  match skip with
  | S n =>
      match s with
      | [] => []
      | _ :: t => findall_from r n t
      end
  | O =>
      match match_here r s with
      | Some (s', c) =>
          group1 c ::
          match s with
          | [] => []
          | _ :: t => findall_from r (List.length s - List.length s' - 1) t
          end
      | None =>
          match s with
          | [] => []
          | _ :: t => findall_from r 0 t
          end
      end
  end.

Definition findall (r : regex) (s : ustr) : list ustr := findall_from r 0 s.

Record requirement : Type := mkRequirement {
  feature : option ustr;
  conditions : option (list ustr);
  expected : option ustr;
  original_text : option ustr
}.

Definition action_keywords : list ustr :=
  map lit
    ["login"; "register"; "validate"; "authenticate"; "create"; "delete";
     "update"; "view"; "display"; "search"]%string.

(** [should\s+(\w+)] *)
Definition should_word_re : regex :=
  Cat (Str (lit "should"))
    (Cat (Plus true (isspace A)) (Grp 1 (Plus true isword))).

(** [(?:\s+and|\s*\.|\s*$)] *)
Definition stop_re : regex :=
  Alt (Cat (Plus true (isspace A)) (Str (lit "and")))
    (Alt (Cat (Star true (isspace A)) (Str (lit ".")))
         (Cat (Star true (isspace A)) Eos)).

(** [with\s+([^.]+?)(?:\s+and|\s*\.|\s*$)] *)
Definition with_re : regex :=
  Cat (Str (lit "with"))
    (Cat (Plus true (isspace A))
       (Cat (Grp 1 (Plus false notperiod)) stop_re)).

(** [using\s+([^.]+?)(?:\s+and|\s*\.|\s*$)] *)
Definition using_re : regex :=
  Cat (Str (lit "using"))
    (Cat (Plus true (isspace A))
       (Cat (Grp 1 (Plus false notperiod)) stop_re)).

(** [(valid\s+\w+)] *)
Definition valid_re : regex :=
  Grp 1 (Cat (Str (lit "valid"))
           (Cat (Plus true (isspace A)) (Plus true isword))).

(** [(invalid\s+\w+)] *)
Definition invalid_re : regex :=
  Grp 1 (Cat (Str (lit "invalid"))
           (Cat (Plus true (isspace A)) (Plus true isword))).

(** [should\s+(.+?)(?:\s*\.|\s*$)] *)
Definition should_outcome_re : regex :=
  Cat (Str (lit "should"))
    (Cat (Plus true (isspace A))
       (Cat (Grp 1 (Plus false isdot))
          (Alt (Cat (Star true (isspace A)) (Str (lit ".")))
               (Cat (Star true (isspace A)) Eos)))).

(** The loop over [self.action_keywords]. *)
Fixpoint first_keyword (keywords : list ustr) (text : ustr) : option ustr :=
  match keywords with
  | [] => None
  | keyword :: rest =>
      if contains keyword text then Some keyword
      else first_keyword rest text
  end.

Definition _extract_feature (text : ustr) : ustr :=
  match first_keyword action_keywords text with
  | Some keyword => keyword
  | None =>
      match search_group1 should_word_re text with
      | Some g => g
      | None => lit "unknown_feature"
      end
  end.

Definition _extract_conditions (text : ustr) : list ustr :=
  let conditions :=
    map strip (findall with_re text)
    ++ map strip (findall using_re text)
    ++ findall valid_re text
    ++ findall invalid_re text in
  match conditions with
  | [] => [lit "no specific conditions"]
  | _ => conditions
  end.

Definition _extract_expected_outcome (text : ustr) : ustr :=
  if contains (lit "successful") text then
    lit "successful " ++ _extract_feature text
  else if contains (lit "failure") text || contains (lit "error") text then
    lit "failure or error message"
  else
    match search_group1 should_outcome_re text with
    | Some g => strip g
    | None => lit "system responds appropriately"
    end.

Definition parse_requirement (requirement_text : ustr) : requirement :=
  let text := strip (lower A requirement_text) in
  {| feature := Some (_extract_feature text);
     conditions := Some (_extract_conditions text);
     expected := Some (_extract_expected_outcome text);
     original_text := Some requirement_text |}.

End Parser.

(** The characters U+0000 to U+00FF together with U+03D2, GREEK UPSILON
    WITH HOOK SYMBOL: a letter that Python counts as upper-case and that
    has no lower-case form, so that [str.lower] leaves it as it is. *)
Inductive wchar : Type :=
| Latin (a : ascii)
| UpsilonHook.

Definition wchar_eq_dec (x y : wchar) : {x = y} + {x <> y}.
Proof. decide equality. apply ascii_dec. Defined.

Definition wchar_isspace (c : wchar) : bool :=
  match c with
  | Latin a => PyStr.isspace a
  | UpsilonHook => false
  end.

Definition wchar_isalnum (c : wchar) : bool :=
  match c with
  | Latin a => PyStr.isalnum a
  | UpsilonHook => true
  end.

Definition wchar_isupper (c : wchar) : bool :=
  match c with
  | Latin a => PyStr.isupper a
  | UpsilonHook => true
  end.

Definition wchar_lower (c : wchar) : wchar :=
  match c with
  | Latin a => Latin (PyStr.lower_char a)
  | UpsilonHook => UpsilonHook
  end.

Definition latin1_upsilon : alphabet :=
  {| char := wchar;
     char_eq_dec := wchar_eq_dec;
     of_ascii := Latin;
     isspace := wchar_isspace;
     isalnum := wchar_isalnum;
     isupper := wchar_isupper;
     lower := map wchar_lower |}.

(** The characters U+0000 to U+00FF alone, with the tables of [PyStr]. *)
Definition latin1 : alphabet :=
  {| char := ascii;
     char_eq_dec := ascii_dec;
     of_ascii := fun a => a;
     isspace := PyStr.isspace;
     isalnum := PyStr.isalnum;
     isupper := PyStr.isupper;
     lower := PyStr.lower |}.

(** The two matchers are given the same pattern: the same shape, the
    same literals, and classes with the same characters. *)
Fixpoint same_pattern (r : Re.regex) (u : regex latin1) : Prop :=
  match r, u with
  | Re.Str l, Str _ l' => l = l'
  | Re.Cls p, Cls _ q => forall c, p c = q c
  | Re.Cat r1 r2, Cat _ u1 u2 => same_pattern r1 u1 /\ same_pattern r2 u2
  | Re.Alt r1 r2, Alt _ u1 u2 => same_pattern r1 u1 /\ same_pattern r2 u2
  | Re.Star g p, Star _ g' q => g = g' /\ forall c, p c = q c
  | Re.Grp n r1, Grp _ n' u1 => n = n' /\ same_pattern r1 u1
  | Re.Eos, Eos _ => True
  | _, _ => False
  end.

End Unicode.

(** ** What the properties are stated with

    The wording of the specification where a property compares it with
    what the code computes, the predicates of the statements, and the
    sample inputs. *)

Module Spec.
Import PyStr.

Fixpoint take_while (p : ascii -> bool) (s : str) : str :=
  match s with
  | c :: t => if p c then c :: take_while p t else []
  | [] => []
  end.

Fixpoint drop_while (p : ascii -> bool) (s : str) : str :=
  match s with
  | c :: t => if p c then drop_while p t else s
  | [] => []
  end.

(** [needle] occurs in [hay]. *)
Definition substring (needle hay : str) : Prop :=
  exists before after, hay = before ++ needle ++ after.

(** The fixed ordered vocabulary of action words. *)
Definition vocabulary : list str :=
  map list_ascii_of_string
    ["login"; "register"; "validate"; "authenticate"; "create"; "delete";
     "update"; "view"; "display"; "search"]%string.

(** The word right after "should" and the white space that follows it,
    when [s] starts with such a clause. *)
Definition word_after_should_here (s : str) : option str :=
  match strip_prefix "should" s with
  | Some rest =>
      match take_while isspace rest,
            take_while isword (drop_while isspace rest) with
      | _ :: _, c :: w => Some (c :: w)
      | _, _ => None
      end
  | None => None
  end.

(** The same for the first place of [s] where there is one. *)
Fixpoint word_after_should (s : str) : option str :=
  match word_after_should_here s with
  | Some w => Some w
  | None =>
      match s with
      | [] => None
      | _ :: t => word_after_should t
      end
  end.

(** Feature extraction: the first vocabulary word (in vocabulary order)
    that is a substring of the text, else the word after "should", else
    the fallback token. *)
Definition extract_feature (text : str) : str :=
  match find (fun word => contains word text) vocabulary with
  | Some word => word
  | None =>
      match word_after_should text with
      | Some w => w
      | None => "unknown_feature"
      end
  end.

(** Sanitizing to a token-safe form: every run of non-alphanumeric
    characters becomes one separator.  [in_run] tells that the separator
    of the current run is already written. *)
Fixpoint sanitize_from (in_run : bool) (s : str) : str :=
  match s with
  | [] => []
  | c :: t =>
      if isalnum c then c :: sanitize_from false t
      else if in_run then sanitize_from true t
      else "_"%char :: sanitize_from true t
  end.

Definition sanitize (s : str) : str := sanitize_from false s.

Definition stop_words : list str :=
  map list_ascii_of_string ["and"; "or"; "with"; "using"]%string.

Definition sentinel : list str := [("no specific conditions" : str)].

(** The function name as the specification derives it. *)
Definition test_name (feature : str) (conditions : list str) : str :=
  let tokens :=
    match conditions with
    | [] => []
    | first :: _ =>
        if Generator.list_eqb conditions sentinel then []
        else firstn 2
               (filter (fun w => negb (mem w stop_words))
                  (split "_" (sanitize first)))
    end in
  match tokens with
  | [] => "test_" ++ sanitize feature
  | _ => "test_" ++ sanitize feature ++ "_" ++ join "_" tokens
  end.

(** The sample sentence of the feature-dispatch property. *)
Definition login_sample : str :=
  "The system should allow login with username and password.".

(** "should", two spaces, a full stop, a line feed and "y". *)
Definition empty_outcome_text : str := "should  ." ++ [newline] ++ "y".

(** The documentation block of a generated test: the lines between the
    two triple quotes, the requirement text on a line of its own. *)
Definition docstring_block (original_text feature_label conditions
  expected : str) : str :=
  Generator.unlines
    [ "    " ++ Generator.Q3;
      "    Test case generated from requirement:" : str;
      "    " ++ original_text;
      [];
      "    Feature: " ++ feature_label;
      "    Conditions: " ++ conditions;
      "    Expected: " ++ expected;
      "    " ++ Generator.Q3 ].

(** What [replace(' ', '_').replace('-', '_')] does to one character. *)
Definition clean_char (c : ascii) : ascii :=
  if Ascii.eqb c " " || Ascii.eqb c "-" then "_"%char else c.

(** A string without upper-case characters. *)
Definition lowercase (s : str) : Prop :=
  Forall (fun c => isupper c = false) s.

(** A message says a phrase when the phrase occurs in it, the case of
    the letters A to Z left aside. *)
Definition ascii_fold (c : ascii) : ascii :=
  if between 65 90 (code c) then ascii_of_N (code c + 32) else c.

Definition says (phrase message : str) : bool :=
  contains phrase (map ascii_fold message).

(** A result record with all the fields of a completed run. *)
Definition complete_record (report_type : str) (d : TestReporter.dict)
  : Prop :=
  exists timestamp exit_code out err,
    TestReporter.dict_get "timestamp" d
      = Some (TestReporter.VStr timestamp)
    /\ TestReporter.dict_get "exit_code" d
       = Some (TestReporter.VInt exit_code)
    /\ TestReporter.dict_get "success" d
       = Some (TestReporter.VBool (exit_code =? 0)%Z)
    /\ TestReporter.dict_get "stdout" d = Some (TestReporter.VStr out)
    /\ TestReporter.dict_get "stderr" d = Some (TestReporter.VStr err)
    /\ TestReporter.dict_get "report_type" d
       = Some (TestReporter.VStr report_type)
    /\ TestReporter.dict_get "message" d
       = Some (TestReporter.VStr
                 (TestReporter._get_status_message exit_code)).

(** No character of [s] is upper-case, in the alphabet [A]. *)
Definition no_upper (A : Unicode.alphabet) (s : list (Unicode.char A))
  : Prop :=
  Forall (fun c => Unicode.isupper A c = false) s.

Arguments no_upper : clear implicits.

(** The characters of the literals that [parse_requirement] may return:
    lower-case ASCII letters, the space and the underscore. *)
Definition literal_chars : str := "abcdefghijklmnopqrstuvwxyz _".

(** "should", a space, and the letter U+03D2. *)
Definition upsilon_text : list Unicode.wchar :=
  map Unicode.Latin (list_ascii_of_string "should ")
  ++ [Unicode.UpsilonHook].

(** A sentence in mixed case, of characters that have a lower-case form. *)
Definition mixed_case_text : list Unicode.wchar :=
  map Unicode.Latin
    (list_ascii_of_string
       "Users SHOULD Browse the catalogue WITH a Valid Account.").

(** The record of a completed run reports that run: the time it was
    made, the exit code, output and error text of the test process, a
    success flag that is true for exit code 0 alone, the tag of the
    report, and the status message of the exit code. *)
Definition run_record (report_type timestamp : str)
  (result : TestReporter.completed) (d : TestReporter.dict) : Prop :=
  TestReporter.dict_get "timestamp" d = Some (TestReporter.VStr timestamp)
  /\ TestReporter.dict_get "exit_code" d
     = Some (TestReporter.VInt result.(TestReporter.returncode))
  /\ TestReporter.dict_get "success" d
     = Some (TestReporter.VBool (result.(TestReporter.returncode) =? 0)%Z)
  /\ TestReporter.dict_get "stdout" d
     = Some (TestReporter.VStr result.(TestReporter.stdout))
  /\ TestReporter.dict_get "stderr" d
     = Some (TestReporter.VStr result.(TestReporter.stderr))
  /\ TestReporter.dict_get "report_type" d
     = Some (TestReporter.VStr report_type)
  /\ TestReporter.dict_get "message" d
     = Some (TestReporter.VStr
               (TestReporter._get_status_message
                  result.(TestReporter.returncode))).

(** The record of a failed run, which holds the error text and a false
    success flag and nothing else. *)
Definition error_only (message : str) : TestReporter.dict :=
  [("error" : str, TestReporter.VStr message);
   ("success" : str, TestReporter.VBool false)].

(** The record of a failed run: an error text and a false success flag,
    nothing else. *)
Definition error_record (d : TestReporter.dict) : Prop :=
  exists message,
    d = [("error" : str, TestReporter.VStr message);
         ("success" : str, TestReporter.VBool false)].

(** Surroundings in which a run bounded by a timeout never ends in time,
    and a run without a timeout succeeds. *)
Definition slow_env : TestReporter.env :=
  {| TestReporter.now_strftime := fun _ => "20240101_120000" : str;
     TestReporter.now_isoformat := "2024-01-01T12:00:00";
     TestReporter.subprocess_run := fun _ timeout =>
       match timeout with
       | Some _ => TestReporter.raise (TestReporter.TimeoutExpired "timed out")
       | None => TestReporter.ret (TestReporter.mkCompleted 0 [] [])
       end;
     TestReporter.path_exists := fun _ => false;
     TestReporter.load_json := fun _ => TestReporter.ret [] |}.

Definition default_reporter : TestReporter.reporter :=
  {| TestReporter.test_dir := "tests/generated";
     TestReporter.reports_dir := "reports" |}.

(** The distinct values of a list, each at its first occurrence. *)
Fixpoint first_occurrences (seen l : list str) : list str :=
  match l with
  | [] => []
  | x :: l' =>
      if mem x seen then first_occurrences seen l'
      else x :: first_occurrences (seen ++ [x]) l'
  end.

End Spec.

(** ** Sample surroundings *)

Module Samples.
Import TestReporter.

(** Every test passes, the report files are there, but the Allure tool is
    not installed and the JSON report cannot be read. *)
Definition passing_env : env :=
  {| now_strftime := fun _ => "20240101_120000" : str;
     now_isoformat := "2024-01-01T12:00:00";
     subprocess_run := fun _ timeout =>
       match timeout with
       | Some _ => ret (mkCompleted 0 "1 passed" [])
       | None => raise (OtherException "No such file or directory: 'allure'")
       end;
     path_exists := fun _ => true;
     load_json := fun _ => raise (OtherException "Expecting value") |}.

(** Every test passes and the Allure tool ends with exit code 1. *)
Definition allure_failing_env : env :=
  {| now_strftime := fun _ => "20240101_120000" : str;
     now_isoformat := "2024-01-01T12:00:00";
     subprocess_run := fun _ timeout =>
       match timeout with
       | Some _ => ret (mkCompleted 0 "1 passed" [])
       | None => ret (mkCompleted 1 [] "allure: bad results")
       end;
     path_exists := fun _ => true;
     load_json := fun _ => ret ("{}" : str) |}.

(** The generator with its default output directory, a clock that has
    stopped, and a file system where that directory exists and has no
    directory inside: a path opens when it is a plain name in it. *)
Definition default_generator : Generator.generator :=
  Generator.mkGenerator "tests/generated".

Definition clock (n : nat) (fmt : str) : str := "2024-01-01 12:00:00".

Definition flat_directory (path : str) : bool :=
  match PyStr.strip_prefix "tests/generated/" path with
  | Some [] | None => false
  | Some name => negb (existsb (Ascii.eqb "/") name)
  end.



(** Documents of which nothing is known but that they are empty. *)
Definition no_json_truthy (j : json) : bool := false.
Definition no_json_format (j : json) : str := j.
Definition no_json_summary (j : json) : py (option (list str)) := ret None.

End Samples.

(** * Properties *)

Import PyStr Re RequirementsParser.

(** ** Strings *)

Lemma str_eqb_refl (a : str) : str_eqb a a = true.
Proof.
  induction a as [|x a IH]; simpl; [reflexivity|].
  now rewrite Ascii.eqb_refl, IH.
Qed.

Lemma str_eqb_eq (a b : str) : str_eqb a b = true <-> a = b.
Proof.
  split.
  - revert b; induction a as [|x a IH]; intros [|y b] H; simpl in H;
      try discriminate; [reflexivity|].
    apply andb_true_iff in H as [Hxy Hab].
    apply Ascii.eqb_eq in Hxy. apply IH in Hab. now subst.
  - intros ->. apply str_eqb_refl.
Qed.

Lemma str_eqb_neq (a b : str) : str_eqb a b = false <-> a <> b.
Proof.
  split.
  - intros H ->. rewrite str_eqb_refl in H. discriminate.
  - intros H. destruct (str_eqb a b) eqn:E; [|reflexivity].
    apply str_eqb_eq in E. contradiction.
Qed.

Lemma strip_prefix_app (p s : str) : strip_prefix p (p ++ s) = Some s.
Proof.
  induction p as [|x p IH]; simpl; [reflexivity|].
  now rewrite Ascii.eqb_refl.
Qed.

Lemma strip_prefix_some (p s r : str) :
  strip_prefix p s = Some r -> s = p ++ r.
Proof.
  revert s; induction p as [|x p IH]; intros s H; simpl in H.
  - now inversion H.
  - destruct s as [|y s]; [discriminate|].
    destruct (Ascii.eqb x y) eqn:E; [|discriminate].
    apply Ascii.eqb_eq in E. subst y. simpl. f_equal. now apply IH.
Qed.

(** [needle in hay] holds exactly when [needle] is a substring of [hay]. *)
Lemma contains_iff (needle hay : str) :
  contains needle hay = true <-> exists a b, hay = a ++ needle ++ b.
Proof.
  split.
  - induction hay as [|c hay IH]; simpl; unfold startswith; intros H.
    + destruct (strip_prefix needle []) as [r|] eqn:E; [|discriminate].
      apply strip_prefix_some in E. exists [], r. exact E.
    + destruct (strip_prefix needle (c :: hay)) as [r|] eqn:E.
      * apply strip_prefix_some in E. exists [], r. exact E.
      * simpl in H. destruct (IH H) as (a & b & ->).
        exists (c :: a), b. reflexivity.
  - intros (a & b & ->). induction a as [|c a IH].
    + simpl. destruct (needle ++ b) eqn:E; simpl; unfold startswith;
        rewrite <- E, strip_prefix_app; reflexivity.
    + simpl. rewrite IH. apply orb_true_r.
Qed.

Lemma lstrip_Forall (P : ascii -> Prop) (s : str) :
  Forall P s -> Forall P (lstrip s).
Proof.
  induction 1 as [|c s Hc Hs IH]; simpl; [constructor|].
  destruct (isspace c); [exact IH|now constructor].
Qed.

Lemma strip_Forall (P : ascii -> Prop) (s : str) :
  Forall P s -> Forall P (strip s).
Proof.
  intros H. unfold strip, rstrip.
  apply Forall_rev, lstrip_Forall, Forall_rev, lstrip_Forall, H.
Qed.

Lemma lower_char_not_upper (c : ascii) : isupper (lower_char c) = false.
Proof.
  destruct c as [[] [] [] [] [] [] [] []]; vm_compute; reflexivity.
Qed.

Lemma lower_not_upper (s : str) :
  Forall (fun c => isupper c = false) (lower s).
Proof.
  unfold lower. apply Forall_forall. intros c Hc.
  apply in_map_iff in Hc as (x & <- & _). apply lower_char_not_upper.
Qed.

Lemma isspace_not_word (c : ascii) : isspace c = true -> isword c = false.
Proof.
  destruct c as [[] [] [] [] [] [] [] []]; vm_compute;
    solve [reflexivity | discriminate].
Qed.

Lemma firstn_Forall (A : Type) (P : A -> Prop) (n : nat) (l : list A) :
  Forall P l -> Forall P (firstn n l).
Proof.
  intros H. rewrite <- (firstn_skipn n l) in H.
  apply Forall_app in H. tauto.
Qed.

(** ** The matcher: what it captures is made of characters of its input *)

Section Captures.
Variable P : ascii -> Prop.

Lemma group_ok (n : nat) (c : caps) (g : str) :
  caps_ok P c -> group n c = Some g -> Forall P g.
Proof.
  induction 1 as [|[m v] c Hv Hc IH]; simpl; [discriminate|].
  destruct (Nat.eqb m n); [|exact IH].
  intros [= <-]. exact Hv.
Qed.

Lemma group1_ok (c : caps) : caps_ok P c -> Forall P (group1 c).
Proof.
  intros Hc. unfold group1.
  destruct (group 1 c) eqn:G; [eapply group_ok; eauto|constructor].
Qed.

Lemma star_greedy_Forall (A : Type) (p : ascii -> bool)
  (k : str -> option A) (s : str) (x : A) :
  Forall P s -> star_greedy p k s = Some x ->
  exists s', Forall P s' /\ k s' = Some x.
Proof.
  induction 1 as [|a s Ha Hs IH]; simpl; intros H.
  - exists []. split; [constructor|exact H].
  - destruct (p a).
    + destruct (star_greedy p k s) as [y|] eqn:E.
      * injection H as ->. apply IH. reflexivity.
      * exists (a :: s). split; [now constructor|exact H].
    + exists (a :: s). split; [now constructor|exact H].
Qed.

Lemma star_lazy_Forall (A : Type) (p : ascii -> bool)
  (k : str -> option A) (s : str) (x : A) :
  Forall P s -> star_lazy p k s = Some x ->
  exists s', Forall P s' /\ k s' = Some x.
Proof.
  induction 1 as [|a s Ha Hs IH]; simpl; intros H.
  - destruct (k []) eqn:E; [|discriminate].
    exists []. split; [constructor|congruence].
  - destruct (k (a :: s)) eqn:E.
    + exists (a :: s). split; [now constructor|congruence].
    + destruct (p a); [now apply IH|discriminate].
Qed.

Lemma strip_prefix_Forall (lit s r : str) :
  Forall P s -> strip_prefix lit s = Some r -> Forall P r.
Proof.
  intros Hs H. apply strip_prefix_some in H. subst s.
  apply Forall_app in Hs. tauto.
Qed.

Lemma rmatch_Forall (r : regex) :
  forall (A : Type) (s : str) (c : caps) (k : str -> caps -> option A)
    (x : A),
    Forall P s -> caps_ok P c -> rmatch r s c k = Some x ->
    exists s' c', Forall P s' /\ caps_ok P c' /\ k s' c' = Some x.
Proof.
  induction r as [lit|p|r1 IH1 r2 IH2|r1 IH1 r2 IH2|g p|n r IH|];
    intros A s c k x Hs Hc H; simpl in H.
  - destruct (strip_prefix lit s) as [s'|] eqn:E; [|discriminate].
    exists s', c. eauto using strip_prefix_Forall.
  - destruct s as [|a s]; [discriminate|].
    destruct (p a); [|discriminate].
    exists s, c. inversion Hs; subst. auto.
  - apply IH1 in H as (s1 & c1 & Hs1 & Hc1 & H); auto.
    eapply IH2; eauto.
  - destruct (rmatch r1 s c k) as [y|] eqn:E.
    + injection H as ->. eapply IH1; eauto.
    + eapply IH2; eauto.
  - destruct g.
    + apply star_greedy_Forall in H as (s' & Hs' & H); auto.
      exists s', c. auto.
    + apply star_lazy_Forall in H as (s' & Hs' & H); auto.
      exists s', c. auto.
  - apply IH in H as (s' & c' & Hs' & Hc' & H); auto.
    eexists _, _. split; [exact Hs'|]. split; [|exact H].
    constructor; [|exact Hc']. simpl. now apply firstn_Forall.
  - destruct (at_eos s); [|discriminate]. exists s, c. auto.
Qed.

Lemma match_here_Forall (r : regex) (s s' : str) (c : caps) :
  Forall P s -> match_here r s = Some (s', c) ->
  Forall P s' /\ caps_ok P c.
Proof.
  intros Hs H. unfold match_here in H.
  apply rmatch_Forall in H as (s1 & c1 & Hs1 & Hc1 & [= <- <-]);
    auto. constructor.
Qed.

Lemma search_group1_Forall (r : regex) (s g : str) :
  Forall P s -> search_group1 r s = Some g -> Forall P g.
Proof.
  unfold search_group1. intros Hs.
  assert (Hsearch : forall m, search r s = Some m -> caps_ok P (snd m)).
  { induction Hs as [|a s Ha Hs IH]; simpl; intros [s' c] H.
    - destruct (match_here r []) as [m|] eqn:E; [|discriminate].
      injection H as ->.
      apply match_here_Forall in E; [tauto|constructor].
    - destruct (match_here r (a :: s)) as [m|] eqn:E.
      + injection H as ->.
        apply match_here_Forall in E; [tauto|now constructor].
      + now apply IH. }
  destruct (search r s) as [[s' c]|] eqn:E; [|discriminate].
  intros [= <-]. specialize (Hsearch _ eq_refl). simpl in Hsearch.
  now apply group1_ok.
Qed.

Lemma findall_Forall (r : regex) (s : str) :
  Forall P s -> Forall (Forall P) (findall r s).
Proof.
  unfold findall. generalize 0 as skip. intros skip Hs. revert skip.
  induction Hs as [|a s Ha Hs IH]; intros skip.
  - destruct skip; simpl; [|constructor].
    destruct (match_here r []) as [[s' c]|] eqn:E; [|constructor].
    apply match_here_Forall in E as [_ Hc]; [|constructor].
    constructor; [|constructor]. now apply group1_ok.
  - destruct skip; simpl; [|apply IH].
    destruct (match_here r (a :: s)) as [[s' c]|] eqn:E; [|apply IH].
    apply match_here_Forall in E as [_ Hc]; [|now constructor].
    constructor; [|apply IH]. now apply group1_ok.
Qed.

End Captures.

(** ** Greedy repetition against a direct scan *)

Lemma star_greedy_drop_total (A : Type) (p : ascii -> bool)
  (k : str -> option A) (s : str) :
  (forall t, k t <> None) ->
  star_greedy p k s = k (Spec.drop_while p s).
Proof.
  intros Hk. induction s as [|a s IH]; simpl; [reflexivity|].
  destruct (p a); [|reflexivity].
  rewrite IH. destruct (k (Spec.drop_while p s)) eqn:E; [reflexivity|].
  now apply Hk in E.
Qed.

Lemma star_greedy_drop_stuck (A : Type) (p : ascii -> bool)
  (k : str -> option A) (s : str) :
  (forall a t, p a = true -> k (a :: t) = None) ->
  star_greedy p k s = k (Spec.drop_while p s).
Proof.
  intros Hk. induction s as [|a s IH]; simpl; [reflexivity|].
  destruct (p a) eqn:Ha; [|reflexivity].
  rewrite IH. destruct (k (Spec.drop_while p s)); [reflexivity|].
  now apply Hk.
Qed.

Lemma drop_while_length (p : ascii -> bool) (s : str) :
  List.length (Spec.drop_while p s) <= List.length s.
Proof.
  induction s as [|a s IH]; simpl; [lia|].
  destruct (p a); simpl; lia.
Qed.

Lemma firstn_take_while (p : ascii -> bool) (s : str) :
  firstn (List.length s - List.length (Spec.drop_while p s)) s
  = Spec.take_while p s.
Proof.
  induction s as [|a s IH]; [reflexivity|].
  cbn [Spec.drop_while Spec.take_while]. destruct (p a).
  - pose proof (drop_while_length p s) as Hl.
    replace (List.length (a :: s) - List.length (Spec.drop_while p s))
      with (S (List.length s - List.length (Spec.drop_while p s)))
      by (cbn [List.length]; lia).
    cbn [firstn]. now rewrite IH.
  - now rewrite Nat.sub_diag.
Qed.

(** [should\s+(\w+)] anchored at the head of [s] captures the word that
    follows "should" and all the white space after it. *)
Lemma match_here_should_word (s : str) :
  option_map (fun m => group1 (snd m)) (match_here should_word_re s)
  = Spec.word_after_should_here s.
Proof.
  unfold match_here, should_word_re, Spec.word_after_should_here, Plus.
  cbn [rmatch].
  destruct (strip_prefix "should" s) as [rest|]; [|reflexivity].
  destruct rest as [|a rest]; [reflexivity|].
  cbn [Spec.take_while Spec.drop_while].
  destruct (isspace a) eqn:Ha; [|reflexivity].
  rewrite star_greedy_drop_stuck.
  2:{ intros b t Hb. apply isspace_not_word in Hb. now rewrite Hb. }
  destruct (Spec.drop_while isspace rest) as [|b rest2]; [reflexivity|].
  cbn [Spec.take_while].
  destruct (isword b) eqn:Hb; [|reflexivity].
  rewrite star_greedy_drop_total by discriminate.
  cbn [option_map]. unfold group1. cbn [snd group Nat.eqb].
  f_equal.
  pose proof (drop_while_length isword rest2) as Hl.
  replace (List.length (b :: rest2)
           - List.length (Spec.drop_while isword rest2))
    with (S (List.length rest2
             - List.length (Spec.drop_while isword rest2)))
    by (cbn [List.length]; lia).
  cbn [firstn]. now rewrite firstn_take_while.
Qed.

Lemma search_group1_unfold (r : regex) (s : str) :
  search_group1 r s
  = match option_map (fun m => group1 (snd m)) (match_here r s) with
    | Some g => Some g
    | None =>
        match s with
        | [] => None
        | _ :: t => search_group1 r t
        end
    end.
Proof.
  unfold search_group1.
  destruct s as [|a s]; simpl;
    destruct (match_here r _) as [[s' c]|]; reflexivity.
Qed.

Lemma search_should_word (s : str) :
  search_group1 should_word_re s = Spec.word_after_should s.
Proof.
  induction s as [|a s IH]; rewrite search_group1_unfold;
    rewrite match_here_should_word.
  - simpl. destruct (Spec.word_after_should_here []); reflexivity.
  - cbn [Spec.word_after_should].
    destruct (Spec.word_after_should_here (a :: s)); [reflexivity|].
    exact IH.
Qed.

Lemma first_keyword_find (keywords : list str) (text : str) :
  first_keyword keywords text
  = find (fun word => contains word text) keywords.
Proof.
  induction keywords as [|k ks IH]; simpl; [reflexivity|].
  destruct (contains k text); [reflexivity|exact IH].
Qed.

Lemma extract_feature_spec (text : str) :
  _extract_feature text = Spec.extract_feature text.
Proof.
  unfold _extract_feature, Spec.extract_feature.
  rewrite first_keyword_find. change Spec.vocabulary with action_keywords.
  destruct (find _ action_keywords); [reflexivity|].
  now rewrite search_should_word.
Qed.

Lemma find_first (p : str -> bool) (l : list str) (x : str) :
  find p l = Some x ->
  exists before after,
    l = before ++ x :: after /\ p x = true
    /\ Forall (fun w => p w = false) before.
Proof.
  induction l as [|y l IH]; simpl; [discriminate|].
  destruct (p y) eqn:E.
  - intros [= ->]. exists [], l. auto.
  - intros H. destruct (IH H) as (before & after & -> & Hx & Hb).
    exists (y :: before), after. auto.
Qed.

Lemma find_none (p : str -> bool) (l : list str) :
  find p l = None -> Forall (fun w => p w = false) l.
Proof.
  induction l as [|y l IH]; simpl; [constructor|].
  destruct (p y) eqn:E; [discriminate|]. auto.
Qed.

Lemma word_after_should_nonempty (s w : str) :
  Spec.word_after_should s = Some w -> w <> [].
Proof.
  induction s as [|a s IH]; cbn [Spec.word_after_should];
    destruct (Spec.word_after_should_here _) as [v|] eqn:E;
    try discriminate; try exact IH;
    intros [= <-]; unfold Spec.word_after_should_here in E;
    destruct (strip_prefix _ _); try discriminate;
    destruct (Spec.take_while isspace _); try discriminate;
    destruct (Spec.take_while isword _); try discriminate;
    injection E as <-; discriminate.
Qed.

Lemma contains_false (needle hay : str) :
  contains needle hay = false -> ~ Spec.substring needle hay.
Proof.
  intros H Hs. apply contains_iff in Hs. congruence.
Qed.

Lemma extract_feature_cases (text : str) :
  let absent := fun word => ~ Spec.substring word text in
  let f := _extract_feature text in
  (exists before after,
      Spec.vocabulary = before ++ f :: after
      /\ Spec.substring f text /\ Forall absent before)
  \/ (Forall absent Spec.vocabulary
      /\ Spec.word_after_should text = Some f)
  \/ (Forall absent Spec.vocabulary
      /\ Spec.word_after_should text = None
      /\ f = "unknown_feature").
Proof.
  intros absent f. subst f.
  rewrite extract_feature_spec. unfold Spec.extract_feature.
  destruct (find _ Spec.vocabulary) as [word|] eqn:F.
  - left. apply find_first in F as (before & after & Hv & Hw & Hb).
    exists before, after. split; [exact Hv|]. split.
    + now apply contains_iff.
    + eapply Forall_impl; [|exact Hb]. intros w. apply contains_false.
  - right. apply find_none in F.
    assert (Ha : Forall absent Spec.vocabulary).
    { eapply Forall_impl; [|exact F]. intros w. apply contains_false. }
    destruct (Spec.word_after_should text) as [w|]; auto.
Qed.

(** ** requirements_parser.py: what the parser returns *)

(** C4.  For every input string, the feature returned by [parse_requirement]
    is the first word of the ordered vocabulary that is a substring of the
    lower-cased, trimmed text (the order of the vocabulary decides, not the
    position in the text); when no vocabulary word occurs it is the word
    captured right after "should" and its white space, when there is one;
    otherwise it is "unknown_feature". *)
Theorem extract_feature_by_vocabulary_order (requirement_text : str) :
  let text := strip (lower requirement_text) in
  let absent := fun word => ~ Spec.substring word text in
  exists f,
    (parse_requirement requirement_text).(feature) = Some f
    /\ ((exists before after,
            Spec.vocabulary = before ++ f :: after
            /\ Spec.substring f text /\ Forall absent before)
        \/ (Forall absent Spec.vocabulary
            /\ Spec.word_after_should text = Some f)
        \/ (Forall absent Spec.vocabulary
            /\ Spec.word_after_should text = None
            /\ f = "unknown_feature")).
Proof.
  intros text absent. exists (_extract_feature text).
  split; [reflexivity|]. apply extract_feature_cases.
Qed.

Lemma extract_feature_lowercase (text : str) :
  Spec.lowercase text -> Spec.lowercase (_extract_feature text).
Proof.
  intros Ht. unfold _extract_feature.
  destruct (first_keyword action_keywords text) as [k|] eqn:K.
  - assert (Hall : Forall Spec.lowercase action_keywords)
      by (repeat constructor).
    rewrite first_keyword_find in K. apply find_some in K as [Hin _].
    rewrite Forall_forall in Hall. now apply Hall.
  - destruct (search_group1 should_word_re text) as [g|] eqn:G.
    + eapply search_group1_Forall; eauto.
    + repeat constructor.
Qed.

Lemma lowercase_fixed (s : str) : Spec.lowercase s -> lower s = s.
Proof.
  induction 1 as [|c s Hc Hs IH]; [reflexivity|].
  unfold lower in *. simpl. rewrite IH. unfold lower_char.
  now rewrite Hc.
Qed.

Lemma parse_fields_lowercase_chars (requirement_text : str) :
  exists f cs e,
    (parse_requirement requirement_text).(feature) = Some f
    /\ (parse_requirement requirement_text).(conditions) = Some cs
    /\ (parse_requirement requirement_text).(expected) = Some e
    /\ Spec.lowercase f /\ Forall Spec.lowercase cs /\ Spec.lowercase e.
Proof.
  set (text := strip (lower requirement_text)).
  assert (Ht : Spec.lowercase text)
    by apply strip_Forall, lower_not_upper.
  exists (_extract_feature text), (_extract_conditions text),
    (_extract_expected_outcome text).
  repeat split; try reflexivity.
  - now apply extract_feature_lowercase.
  - unfold _extract_conditions.
    match goal with |- Forall _ (match ?l with _ => _ end) =>
      assert (Hl : Forall Spec.lowercase l); [|destruct l; [repeat constructor|exact Hl]]
    end.
    repeat rewrite Forall_app. repeat split.
    + apply Forall_forall. intros c Hc.
      apply in_map_iff in Hc as (g & <- & Hg). apply strip_Forall.
      pose proof (findall_Forall with_re Ht) as Hall.
      rewrite Forall_forall in Hall. now apply Hall.
    + apply Forall_forall. intros c Hc.
      apply in_map_iff in Hc as (g & <- & Hg). apply strip_Forall.
      pose proof (findall_Forall using_re Ht) as Hall.
      rewrite Forall_forall in Hall. now apply Hall.
    + now apply findall_Forall.
    + now apply findall_Forall.
  - unfold _extract_expected_outcome.
    destruct (contains "successful" text).
    + apply Forall_app. split; [repeat constructor|].
      now apply extract_feature_lowercase.
    + destruct (contains "failure" text || contains "error" text);
        [repeat constructor|].
      destruct (search_group1 should_outcome_re text) as [g|] eqn:G.
      * apply strip_Forall. eapply search_group1_Forall; eauto.
      * repeat constructor.
Qed.

(** X22.  For every input string of characters U+0000 to U+00FF, the
    feature, the expected outcome and each condition of the record
    returned by [parse_requirement] are fully lower-case: they contain no
    upper-case character, and lower-casing them changes nothing. *)
Theorem parse_fields_lowercase (requirement_text : str) :
  let fully_lower := fun s : str => Spec.lowercase s /\ lower s = s in
  exists f cs e,
    (parse_requirement requirement_text).(feature) = Some f
    /\ (parse_requirement requirement_text).(conditions) = Some cs
    /\ (parse_requirement requirement_text).(expected) = Some e
    /\ fully_lower f /\ Forall fully_lower cs /\ fully_lower e.
Proof.
  intros fully_lower.
  destruct (parse_fields_lowercase_chars requirement_text)
    as (f & cs & e & Hf & Hcs & He & Lf & Lcs & Le).
  exists f, cs, e. repeat split; auto using lowercase_fixed.
  eapply Forall_impl; [|exact Lcs].
  intros c Hc. split; auto using lowercase_fixed.
Qed.

(** ** requirements_parser.py over any alphabet: where the characters of
    the fields come from *)

Section UnicodeCaptures.
Variable A : Unicode.alphabet.
Variable P : Unicode.char A -> Prop.

Local Abbreviation ustr := (list (Unicode.char A)).

Lemma unicode_lstrip_Forall (s : ustr) :
  Forall P s -> Forall P (Unicode.lstrip A s).
Proof.
  induction 1 as [|c s Hc Hs IH]; simpl; [constructor|].
  destruct (Unicode.isspace A c); [exact IH|now constructor].
Qed.

Lemma unicode_strip_Forall (s : ustr) :
  Forall P s -> Forall P (Unicode.strip A s).
Proof.
  intros H. unfold Unicode.strip, Unicode.rstrip.
  apply Forall_rev, unicode_lstrip_Forall, Forall_rev,
    unicode_lstrip_Forall, H.
Qed.

Lemma unicode_strip_prefix_Forall (lit s r : ustr) :
  Forall P s -> Unicode.strip_prefix A lit s = Some r -> Forall P r.
Proof.
  revert s. induction lit as [|x lit IH]; intros s Hs H; simpl in H.
  - now injection H as <-.
  - destruct s as [|y s]; [discriminate|].
    destruct (Unicode.char_eqb A x y); [|discriminate].
    inversion Hs; subst. eauto.
Qed.

Lemma unicode_group_ok (n : nat) (c : Unicode.caps A) (g : ustr) :
  Unicode.caps_ok A P c -> Unicode.group A n c = Some g -> Forall P g.
Proof.
  induction 1 as [|[m v] c Hv Hc IH]; simpl; [discriminate|].
  destruct (Nat.eqb m n); [|exact IH].
  intros [= <-]. exact Hv.
Qed.

Lemma unicode_group1_ok (c : Unicode.caps A) :
  Unicode.caps_ok A P c -> Forall P (Unicode.group1 A c).
Proof.
  intros Hc. unfold Unicode.group1.
  destruct (Unicode.group A 1 c) eqn:G;
    [eapply unicode_group_ok; eauto|constructor].
Qed.

Lemma unicode_star_greedy_Forall (R : Type) (p : Unicode.char A -> bool)
  (k : ustr -> option R) (s : ustr) (x : R) :
  Forall P s -> Unicode.star_greedy A p k s = Some x ->
  exists s', Forall P s' /\ k s' = Some x.
Proof.
  induction 1 as [|a s Ha Hs IH]; simpl; intros H.
  - exists []. split; [constructor|exact H].
  - destruct (p a).
    + destruct (Unicode.star_greedy A p k s) as [y|] eqn:E.
      * injection H as ->. apply IH. reflexivity.
      * exists (a :: s). split; [now constructor|exact H].
    + exists (a :: s). split; [now constructor|exact H].
Qed.

Lemma unicode_star_lazy_Forall (R : Type) (p : Unicode.char A -> bool)
  (k : ustr -> option R) (s : ustr) (x : R) :
  Forall P s -> Unicode.star_lazy A p k s = Some x ->
  exists s', Forall P s' /\ k s' = Some x.
Proof.
  induction 1 as [|a s Ha Hs IH]; simpl; intros H.
  - destruct (k []) eqn:E; [|discriminate].
    exists []. split; [constructor|congruence].
  - destruct (k (a :: s)) eqn:E.
    + exists (a :: s). split; [now constructor|congruence].
    + destruct (p a); [now apply IH|discriminate].
Qed.

Lemma unicode_rmatch_Forall (r : Unicode.regex A) :
  forall (R : Type) (s : ustr) (c : Unicode.caps A)
    (k : ustr -> Unicode.caps A -> option R) (x : R),
    Forall P s -> Unicode.caps_ok A P c -> Unicode.rmatch A r s c k = Some x ->
    exists s' c', Forall P s' /\ Unicode.caps_ok A P c' /\ k s' c' = Some x.
Proof.
  induction r as [lit|p|r1 IH1 r2 IH2|r1 IH1 r2 IH2|g p|n r IH|];
    intros R s c k x Hs Hc H; simpl in H.
  - destruct (Unicode.strip_prefix A lit s) as [s'|] eqn:E; [|discriminate].
    exists s', c. eauto using unicode_strip_prefix_Forall.
  - destruct s as [|a s]; [discriminate|].
    destruct (p a); [|discriminate].
    exists s, c. inversion Hs; subst. auto.
  - apply IH1 in H as (s1 & c1 & Hs1 & Hc1 & H); auto.
    eapply IH2; eauto.
  - destruct (Unicode.rmatch A r1 s c k) as [y|] eqn:E.
    + injection H as ->. eapply IH1; eauto.
    + eapply IH2; eauto.
  - destruct g.
    + apply unicode_star_greedy_Forall in H as (s' & Hs' & H); auto.
      exists s', c. auto.
    + apply unicode_star_lazy_Forall in H as (s' & Hs' & H); auto.
      exists s', c. auto.
  - apply IH in H as (s' & c' & Hs' & Hc' & H); auto.
    eexists _, _. split; [exact Hs'|]. split; [|exact H].
    constructor; [|exact Hc']. simpl. now apply firstn_Forall.
  - destruct (Unicode.at_eos A s); [|discriminate]. exists s, c. auto.
Qed.

Lemma unicode_match_here_Forall (r : Unicode.regex A) (s s' : ustr)
  (c : Unicode.caps A) :
  Forall P s -> Unicode.match_here A r s = Some (s', c) ->
  Forall P s' /\ Unicode.caps_ok A P c.
Proof.
  intros Hs H. unfold Unicode.match_here in H.
  apply unicode_rmatch_Forall in H as (s1 & c1 & Hs1 & Hc1 & [= <- <-]);
    auto. constructor.
Qed.

Lemma unicode_search_group1_Forall (r : Unicode.regex A) (s g : ustr) :
  Forall P s -> Unicode.search_group1 A r s = Some g -> Forall P g.
Proof.
  unfold Unicode.search_group1. intros Hs.
  assert (Hsearch : forall m, Unicode.search A r s = Some m ->
                              Unicode.caps_ok A P (snd m)).
  { induction Hs as [|a s Ha Hs IH]; simpl; intros [s' c] H.
    - destruct (Unicode.match_here A r []) as [m|] eqn:E; [|discriminate].
      injection H as ->.
      apply unicode_match_here_Forall in E; [tauto|constructor].
    - destruct (Unicode.match_here A r (a :: s)) as [m|] eqn:E.
      + injection H as ->.
        apply unicode_match_here_Forall in E; [tauto|now constructor].
      + now apply IH. }
  destruct (Unicode.search A r s) as [[s' c]|] eqn:E; [|discriminate].
  intros [= <-]. specialize (Hsearch _ eq_refl). simpl in Hsearch.
  now apply unicode_group1_ok.
Qed.

Lemma unicode_findall_Forall (r : Unicode.regex A) (s : ustr) :
  Forall P s -> Forall (Forall P) (Unicode.findall A r s).
Proof.
  unfold Unicode.findall. generalize 0 as skip. intros skip Hs. revert skip.
  induction Hs as [|a s Ha Hs IH]; intros skip.
  - destruct skip; simpl; [|constructor].
    destruct (Unicode.match_here A r []) as [[s' c]|] eqn:E; [|constructor].
    apply unicode_match_here_Forall in E as [_ Hc]; [|constructor].
    constructor; [|constructor]. now apply unicode_group1_ok.
  - destruct skip; simpl; [|apply IH].
    destruct (Unicode.match_here A r (a :: s)) as [[s' c]|] eqn:E;
      [|apply IH].
    apply unicode_match_here_Forall in E as [_ Hc]; [|now constructor].
    constructor; [|apply IH]. now apply unicode_group1_ok.
Qed.

Hypothesis Hliteral :
  forall a : ascii, In a Spec.literal_chars -> P (Unicode.of_ascii A a).

Lemma unicode_lit_Forall (s : string) :
  Forall (fun a => In a Spec.literal_chars) (list_ascii_of_string s) ->
  Forall P (Unicode.lit A s).
Proof.
  unfold Unicode.lit. intros H. apply Forall_forall. intros c Hc.
  apply in_map_iff in Hc as (a & <- & Ha).
  rewrite Forall_forall in H. auto.
Qed.

Ltac literal :=
  apply unicode_lit_Forall; apply Forall_forall;
  let a := fresh "a" in
  let Ha := fresh "Ha" in
  intros a Ha; simpl in Ha;
  repeat (destruct Ha as [<-|Ha];
          [unfold Spec.literal_chars; simpl;
           solve [repeat (first [left; reflexivity | right])]|]);
  contradiction.

Lemma unicode_extract_feature_Forall (text : ustr) :
  Forall P text -> Forall P (Unicode._extract_feature A text).
Proof.
  intros Ht. unfold Unicode._extract_feature.
  destruct (Unicode.first_keyword A (Unicode.action_keywords A) text)
    as [k|] eqn:K.
  - assert (Hall : Forall (Forall P) (Unicode.action_keywords A))
      by (unfold Unicode.action_keywords; cbn [map];
          repeat (apply Forall_cons; [literal|]); apply Forall_nil).
    revert K. induction Hall as [|w ws Hw Hws IH]; simpl; [discriminate|].
    destruct (Unicode.contains A w text); [|exact IH].
    now intros [= <-].
  - destruct (Unicode.search_group1 A (Unicode.should_word_re A) text)
      as [g|] eqn:G.
    + eapply unicode_search_group1_Forall; eauto.
    + literal.
Qed.

Lemma parse_fields_from_lowered_text_aux (requirement_text : ustr) :
  Forall P (Unicode.lower A requirement_text) ->
  exists f cs e,
    Unicode.feature A (Unicode.parse_requirement A requirement_text)
    = Some f
    /\ Unicode.conditions A (Unicode.parse_requirement A requirement_text)
       = Some cs
    /\ Unicode.expected A (Unicode.parse_requirement A requirement_text)
       = Some e
    /\ Forall P f /\ Forall (Forall P) cs /\ Forall P e.
Proof.
  intros Hlow.
  set (text := Unicode.strip A (Unicode.lower A requirement_text)).
  assert (Ht : Forall P text) by now apply unicode_strip_Forall.
  exists (Unicode._extract_feature A text),
    (Unicode._extract_conditions A text),
    (Unicode._extract_expected_outcome A text).
  repeat split; try reflexivity.
  - now apply unicode_extract_feature_Forall.
  - unfold Unicode._extract_conditions.
    match goal with |- Forall _ (match ?l with _ => _ end) =>
      assert (Hl : Forall (Forall P) l);
        [|destruct l; [constructor; [literal|constructor]|exact Hl]]
    end.
    repeat rewrite Forall_app. repeat split.
    + apply Forall_forall. intros c Hc.
      apply in_map_iff in Hc as (g & <- & Hg). apply unicode_strip_Forall.
      pose proof (unicode_findall_Forall (Unicode.with_re A) Ht) as Hall.
      rewrite Forall_forall in Hall. now apply Hall.
    + apply Forall_forall. intros c Hc.
      apply in_map_iff in Hc as (g & <- & Hg). apply unicode_strip_Forall.
      pose proof (unicode_findall_Forall (Unicode.using_re A) Ht) as Hall.
      rewrite Forall_forall in Hall. now apply Hall.
    + now apply unicode_findall_Forall.
    + now apply unicode_findall_Forall.
  - unfold Unicode._extract_expected_outcome.
    destruct (Unicode.contains A (Unicode.lit A "successful") text).
    + apply Forall_app. split; [literal|].
      now apply unicode_extract_feature_Forall.
    + destruct (Unicode.contains A (Unicode.lit A "failure") text
                || Unicode.contains A (Unicode.lit A "error") text);
        [literal|].
      destruct (Unicode.search_group1 A (Unicode.should_outcome_re A) text)
        as [g|] eqn:G.
      * apply unicode_strip_Forall.
        eapply unicode_search_group1_Forall; eauto.
      * literal.
Qed.

End UnicodeCaptures.

(** ** Over the characters U+0000 to U+00FF the two parsers are one *)

Lemma latin1_char_eqb (x y : ascii) :
  Unicode.char_eqb Unicode.latin1 x y = Ascii.eqb x y.
Proof.
  unfold Unicode.char_eqb. simpl.
  destruct (ascii_dec x y) as [->|Hxy].
  - now rewrite Ascii.eqb_refl.
  - symmetry. now apply Ascii.eqb_neq.
Qed.

Lemma code_eqb (c : ascii) (n : N) :
  (n < 256)%N -> (code c =? n)%N = Ascii.eqb c (ascii_of_N n).
Proof.
  intros Hn. unfold code.
  destruct (N.eqb_spec (N_of_ascii c) n) as [E|E];
    destruct (Ascii.eqb_spec c (ascii_of_N n)) as [E'|E']; try reflexivity.
  - exfalso. apply E'. now rewrite <- E, ascii_N_embedding.
  - exfalso. apply E. rewrite E'. now apply N_ascii_embedding.
Qed.

Lemma latin1_isword (c : ascii) :
  isword c = Unicode.isword Unicode.latin1 c.
Proof.
  unfold isword, Unicode.isword.
  rewrite latin1_char_eqb, code_eqb by reflexivity. reflexivity.
Qed.

Lemma latin1_isdot (c : ascii) : isdot c = Unicode.isdot Unicode.latin1 c.
Proof.
  unfold isdot, Unicode.isdot.
  rewrite latin1_char_eqb, code_eqb by reflexivity. reflexivity.
Qed.

Lemma latin1_notperiod (c : ascii) :
  notperiod c = Unicode.notperiod Unicode.latin1 c.
Proof.
  unfold notperiod, Unicode.notperiod.
  rewrite latin1_char_eqb, code_eqb by reflexivity. reflexivity.
Qed.

Lemma latin1_lstrip (s : str) : Unicode.lstrip Unicode.latin1 s = lstrip s.
Proof.
  induction s as [|c s IH]; simpl; [reflexivity|].
  now rewrite IH.
Qed.

Lemma latin1_strip (s : str) : Unicode.strip Unicode.latin1 s = strip s.
Proof.
  unfold Unicode.strip, Unicode.rstrip, strip, rstrip.
  now rewrite !latin1_lstrip.
Qed.

Lemma latin1_strip_prefix (p s : str) :
  Unicode.strip_prefix Unicode.latin1 p s = strip_prefix p s.
Proof.
  revert s. induction p as [|x p IH]; intros s; simpl; [reflexivity|].
  destruct s as [|y s]; [reflexivity|].
  now rewrite latin1_char_eqb, IH.
Qed.

Lemma latin1_contains (needle hay : str) :
  Unicode.contains Unicode.latin1 needle hay = contains needle hay.
Proof.
  induction hay as [|c hay IH]; simpl;
    unfold Unicode.startswith, startswith;
    rewrite latin1_strip_prefix; [reflexivity|].
  now rewrite IH.
Qed.

Lemma latin1_group (n : nat) (c : caps) :
  Unicode.group Unicode.latin1 n c = group n c.
Proof.
  induction c as [|[m v] c IH]; simpl; [reflexivity|]. now rewrite IH.
Qed.

Lemma latin1_star_greedy (R : Type) (p q : ascii -> bool)
  (k k' : str -> option R) (s : str) :
  (forall c, p c = q c) -> (forall t, k t = k' t) ->
  star_greedy p k s = Unicode.star_greedy Unicode.latin1 q k' s.
Proof.
  intros Hp Hk. induction s as [|a s IH]; simpl; [apply Hk|].
  now rewrite Hp, IH, Hk.
Qed.

Lemma latin1_star_lazy (R : Type) (p q : ascii -> bool)
  (k k' : str -> option R) (s : str) :
  (forall c, p c = q c) -> (forall t, k t = k' t) ->
  star_lazy p k s = Unicode.star_lazy Unicode.latin1 q k' s.
Proof.
  intros Hp Hk. induction s as [|a s IH]; simpl; rewrite Hk;
    [reflexivity|].
  now rewrite Hp, IH.
Qed.

Lemma latin1_at_eos (s : str) : Unicode.at_eos Unicode.latin1 s = at_eos s.
Proof.
  destruct s as [|c [|d s]]; simpl; try reflexivity.
  now rewrite latin1_char_eqb, code_eqb.
Qed.

Lemma latin1_rmatch (r : regex) :
  forall (u : Unicode.regex Unicode.latin1) (R : Type) (s : str) (c : caps)
    (k k' : str -> caps -> option R),
    Unicode.same_pattern r u -> (forall t d, k t d = k' t d) ->
    rmatch r s c k = Unicode.rmatch Unicode.latin1 u s c k'.
Proof.
  induction r as [lit|p|r1 IH1 r2 IH2|r1 IH1 r2 IH2|g p|n r IH|];
    intros [lit'|q|u1 u2|u1 u2|g' q|n' u1|] R s c k k' Hsame Hk;
    simpl in Hsame; try contradiction; simpl.
  - subst lit'. rewrite latin1_strip_prefix.
    destruct (strip_prefix lit s); [apply Hk|reflexivity].
  - destruct s as [|a s]; [reflexivity|].
    rewrite Hsame. destruct (q a); [apply Hk|reflexivity].
  - destruct Hsame as [H1 H2]. apply IH1; [exact H1|].
    intros t d. now apply IH2.
  - destruct Hsame as [H1 H2].
    rewrite (IH1 u1 R s c k k' H1 Hk), (IH2 u2 R s c k k' H2 Hk).
    reflexivity.
  - destruct Hsame as [<- Hp]. destruct g.
    + apply latin1_star_greedy; [exact Hp|]. intros t. apply Hk.
    + apply latin1_star_lazy; [exact Hp|]. intros t. apply Hk.
  - destruct Hsame as [<- H1]. apply IH; [exact H1|].
    intros t d. apply Hk.
  - rewrite latin1_at_eos. destruct (at_eos s); [apply Hk|reflexivity].
Qed.

Lemma latin1_match_here (r : regex) (u : Unicode.regex Unicode.latin1)
  (s : str) :
  Unicode.same_pattern r u ->
  Unicode.match_here Unicode.latin1 u s = match_here r s.
Proof.
  intros Hsame. unfold Unicode.match_here, match_here. symmetry.
  now apply latin1_rmatch.
Qed.

Lemma latin1_search_group1 (r : regex)
  (u : Unicode.regex Unicode.latin1) (s : str) :
  Unicode.same_pattern r u ->
  Unicode.search_group1 Unicode.latin1 u s = search_group1 r s.
Proof.
  intros Hsame. unfold Unicode.search_group1, search_group1.
  assert (Hsearch : Unicode.search Unicode.latin1 u s = search r s).
  { induction s as [|a s IH]; simpl; rewrite (@latin1_match_here r u _ Hsame);
      [reflexivity|].
    now rewrite IH. }
  rewrite Hsearch. destruct (search r s) as [[t c]|]; [|reflexivity].
  unfold Unicode.group1, group1. now rewrite latin1_group.
Qed.

Lemma latin1_findall (r : regex) (u : Unicode.regex Unicode.latin1)
  (s : str) :
  Unicode.same_pattern r u ->
  Unicode.findall Unicode.latin1 u s = findall r s.
Proof.
  intros Hsame. unfold Unicode.findall, findall. generalize 0 as skip.
  induction s as [|a s IH]; intros skip; destruct skip; simpl;
    try reflexivity; try apply IH;
    rewrite (@latin1_match_here r u _ Hsame).
  - destruct (match_here r []) as [[t c]|]; [|reflexivity].
    unfold Unicode.group1, group1. now rewrite latin1_group.
  - destruct (match_here r (a :: s)) as [[t c]|]; [|apply IH].
    unfold Unicode.group1, group1. now rewrite latin1_group, IH.
Qed.

Ltac same_pattern :=
  simpl; repeat split;
  auto using latin1_isword, latin1_isdot, latin1_notperiod.

Lemma latin1_extract_feature (text : str) :
  Unicode._extract_feature Unicode.latin1 text = _extract_feature text.
Proof.
  unfold Unicode._extract_feature, _extract_feature.
  assert (Hkey : forall keywords,
             Unicode.first_keyword Unicode.latin1 keywords text
             = first_keyword keywords text).
  { induction keywords as [|k ks IH]; simpl; [reflexivity|].
    now rewrite latin1_contains, IH. }
  change (Unicode.action_keywords Unicode.latin1) with action_keywords.
  rewrite Hkey.
  rewrite (@latin1_search_group1 should_word_re) by same_pattern.
  reflexivity.
Qed.

(** On strings of characters U+0000 to U+00FF, [parse_requirement] over
    that alphabet returns what [RequirementsParser.parse_requirement]
    returns. *)
Lemma latin1_parse_requirement (requirement_text : str) :
  let r := Unicode.parse_requirement Unicode.latin1 requirement_text in
  Unicode.feature _ r = (parse_requirement requirement_text).(feature)
  /\ Unicode.conditions _ r
     = (parse_requirement requirement_text).(conditions)
  /\ Unicode.expected _ r = (parse_requirement requirement_text).(expected)
  /\ Unicode.original_text _ r
     = (parse_requirement requirement_text).(original_text).
Proof.
  cbv zeta. unfold Unicode.parse_requirement, parse_requirement.
  cbn [Unicode.feature Unicode.conditions Unicode.expected
       Unicode.original_text feature conditions expected original_text].
  change (Unicode.lower Unicode.latin1 requirement_text)
    with (lower requirement_text).
  rewrite latin1_strip.
  set (text := strip (lower requirement_text)).
  repeat split.
  - now rewrite latin1_extract_feature.
  - unfold Unicode._extract_conditions, _extract_conditions. f_equal.
    rewrite (@latin1_findall with_re) by same_pattern.
    rewrite (@latin1_findall using_re) by same_pattern.
    rewrite (@latin1_findall valid_re) by same_pattern.
    rewrite (@latin1_findall invalid_re) by same_pattern.
    rewrite !(map_ext _ _ latin1_strip). reflexivity.
  - unfold Unicode._extract_expected_outcome, _extract_expected_outcome.
    f_equal. rewrite !latin1_contains, latin1_extract_feature.
    rewrite (@latin1_search_group1 should_outcome_re) by same_pattern.
    change (Unicode.lit Unicode.latin1 "successful")
      with (list_ascii_of_string "successful").
    change (Unicode.lit Unicode.latin1 "failure")
      with (list_ascii_of_string "failure").
    change (Unicode.lit Unicode.latin1 "error")
      with (list_ascii_of_string "error").
    destruct (contains "successful" text); [reflexivity|].
    destruct (contains "failure" text || contains "error" text);
      [reflexivity|].
    destruct (search_group1 should_outcome_re text) as [g|];
      [now rewrite latin1_strip|reflexivity].
Qed.

(** C10 as stated fails.  On the text "should" followed by a space and the
    letter U+03D2, lower-casing and trimming change nothing, no word of
    the vocabulary occurs, and the word after "should" is that letter: the
    feature (and the expected outcome) is the one-letter string U+03D2,
    which is upper-case. *)
Lemma upsilon_hook_field_counterexample :
  Unicode.feature _
    (Unicode.parse_requirement Unicode.latin1_upsilon Spec.upsilon_text)
  = Some [Unicode.UpsilonHook]
  /\ Unicode.expected _
       (Unicode.parse_requirement Unicode.latin1_upsilon Spec.upsilon_text)
     = Some [Unicode.UpsilonHook]
  /\ Unicode.isupper Unicode.latin1_upsilon Unicode.UpsilonHook = true
  /\ ~ (forall requirement_text : list Unicode.wchar,
          exists f cs e,
            Unicode.feature _
              (Unicode.parse_requirement Unicode.latin1_upsilon
                 requirement_text) = Some f
            /\ Unicode.conditions _
                 (Unicode.parse_requirement Unicode.latin1_upsilon
                    requirement_text) = Some cs
            /\ Unicode.expected _
                 (Unicode.parse_requirement Unicode.latin1_upsilon
                    requirement_text) = Some e
            /\ Spec.no_upper Unicode.latin1_upsilon f
            /\ Forall (Spec.no_upper Unicode.latin1_upsilon) cs
            /\ Spec.no_upper Unicode.latin1_upsilon e).
Proof.
  split; [vm_compute; reflexivity|].
  split; [vm_compute; reflexivity|].
  split; [reflexivity|].
  intros H.
  destruct (H Spec.upsilon_text) as (f & cs & e & Hf & _ & _ & Uf & _).
  vm_compute in Hf. injection Hf as <-.
  inversion Uf as [|c l Hc Hl]. discriminate Hc.
Qed.

(** C10, amended.  For every input string over any alphabet, the feature,
    the expected outcome and each condition of the record returned by
    [parse_requirement] are made of characters of the lower-cased text and
    of characters of the lower-case literals of the source (lower-case
    ASCII letters, the space and the underscore): whatever holds of all of
    these holds of every character of every such field.  So the fields
    have no upper-case character when [str.lower] leaves none in the
    text, and only then can they be said to be fully lower-case. *)
Theorem parse_fields_from_lowered_text (A : Unicode.alphabet)
  (P : Unicode.char A -> Prop) (requirement_text : list (Unicode.char A))
  (Hliteral : forall a : ascii,
      In a Spec.literal_chars -> P (Unicode.of_ascii A a))
  (Hlowered : Forall P (Unicode.lower A requirement_text)) :
  exists f cs e,
    Unicode.feature A (Unicode.parse_requirement A requirement_text)
    = Some f
    /\ Unicode.conditions A (Unicode.parse_requirement A requirement_text)
       = Some cs
    /\ Unicode.expected A (Unicode.parse_requirement A requirement_text)
       = Some e
    /\ Forall P f /\ Forall (Forall P) cs /\ Forall P e.
Proof.
  now apply parse_fields_from_lowered_text_aux.
Qed.

Lemma parse_fields_from_lowered_text_witness :
  exists f cs e,
    Unicode.feature _
      (Unicode.parse_requirement Unicode.latin1_upsilon
         Spec.mixed_case_text) = Some f
    /\ Unicode.conditions _
         (Unicode.parse_requirement Unicode.latin1_upsilon
            Spec.mixed_case_text) = Some cs
    /\ Unicode.expected _
         (Unicode.parse_requirement Unicode.latin1_upsilon
            Spec.mixed_case_text) = Some e
    /\ Spec.no_upper Unicode.latin1_upsilon f
    /\ Forall (Spec.no_upper Unicode.latin1_upsilon) cs
    /\ Spec.no_upper Unicode.latin1_upsilon e.
Proof.
  apply (@parse_fields_from_lowered_text Unicode.latin1_upsilon
           (fun c => Unicode.isupper Unicode.latin1_upsilon c = false)
           Spec.mixed_case_text).
  - intros a Ha. simpl in Ha.
    repeat (destruct Ha as [<-|Ha]; [reflexivity|]). contradiction.
  - apply Forall_forall. intros c Hc.
    assert (Hall : forallb (fun c => negb (Unicode.wchar_isupper c))
                     (Unicode.lower Unicode.latin1_upsilon
                        Spec.mixed_case_text) = true)
      by (vm_compute; reflexivity).
    rewrite forallb_forall in Hall. specialize (Hall c Hc).
    simpl. now destruct (Unicode.wchar_isupper c).
Defined.

Lemma parse_feature_conditions_nonempty (requirement_text : str) :
  exists f cs,
    (parse_requirement requirement_text).(feature) = Some f
    /\ (parse_requirement requirement_text).(conditions) = Some cs
    /\ f <> [] /\ cs <> [].
Proof.
  pose proof (extract_feature_cases (strip (lower requirement_text)))
    as Hcase. cbv zeta in Hcase.
  exists (_extract_feature (strip (lower requirement_text))),
    (_extract_conditions (strip (lower requirement_text))).
  repeat split.
  - destruct Hcase as [(before & after & Hv & _)|[[_ Hw]|(_ & _ & Hu)]].
    + assert (Hall : Forall (fun w : str => w <> []) Spec.vocabulary)
        by (repeat constructor; discriminate).
      rewrite Forall_forall in Hall. apply Hall. rewrite Hv.
      apply in_elt.
    + eapply word_after_should_nonempty; eauto.
    + rewrite Hu. discriminate.
  - unfold _extract_conditions.
    match goal with |- (match ?l with _ => _ end) <> [] =>
      destruct l; discriminate
    end.
Qed.

(** C1 (the code departs from it).  On the text "should", two spaces, a
    full stop, a line feed and "y", [parse_requirement] returns an empty expected outcome: [.+?] gives up at the line feed, the
    white space before it is handed back, and the group captures a single
    space, which [strip] removes. *)
Theorem parse_expected_empty :
  (parse_requirement Spec.empty_outcome_text).(expected) = Some []
  /\ search_group1 should_outcome_re Spec.empty_outcome_text = Some [" "%char].
Proof. split; vm_compute; reflexivity. Qed.

(** C3 as stated fails: no condition extracted from the sample sentence
    contains "password". *)
Lemma login_sample_conditions_counterexample :
  ~ ((parse_requirement Spec.login_sample).(feature) = Some ("login" : str)
     /\ (exists cs c,
           (parse_requirement Spec.login_sample).(conditions) = Some cs
           /\ In c cs
           /\ contains "username" c = true
           /\ contains "password" c = true)
     /\ (exists e,
           (parse_requirement Spec.login_sample).(expected) = Some e
           /\ e <> [])).
Proof.
  intros (_ & (cs & c & Hcs & Hin & _ & Hp) & _).
  vm_compute in Hcs. injection Hcs as <-.
  destruct Hin as [<-|[]]. vm_compute in Hp. discriminate.
Qed.

(** C3, amended.  For the sample sentence the feature is "login", the only
    condition is "username" (the phrase after "with" ends at " and"), and
    the expected outcome is the non-empty clause after "should". *)
Theorem login_sample_parsed :
  (parse_requirement Spec.login_sample).(feature) = Some ("login" : str)
  /\ (parse_requirement Spec.login_sample).(conditions)
     = Some [("username" : str)]
  /\ (parse_requirement Spec.login_sample).(expected)
     = Some ("allow login with username and password" : str).
Proof. repeat split; vm_compute; reflexivity. Qed.

(** ** test_generator.py: templates and names *)

Import Generator.

Lemma unlines_split (n : nat) (ls : list str) :
  unlines ls = unlines (firstn n ls) ++ unlines (skipn n ls).
Proof.
  unfold unlines. rewrite <- concat_app, <- map_app.
  now rewrite firstn_skipn.
Qed.

(** A list of lines that opens with the header line and the docstring. *)
Ltac split_template :=
  match goal with
  | |- unlines ?ls = _ =>
      rewrite (unlines_split 1 ls); cbn [firstn skipn];
      match goal with
      | |- _ ++ unlines ?rest = _ =>
          rewrite (unlines_split 8 rest); cbn [firstn skipn]
      end
  end.

Lemma generate_test_code_docstring (test_name feature : str)
  (conditions : list str) (expected original_text : str) :
  exists feature_label body,
    _generate_test_code test_name feature conditions expected original_text
    = unlines ["def " ++ test_name ++ "():"]
      ++ Spec.docstring_block original_text feature_label
           (join ", " conditions) expected
      ++ body.
Proof.
  unfold _generate_test_code, Spec.docstring_block.
  destruct (str_eqb feature "login");
    [|destruct (str_eqb feature "register" || str_eqb feature "registration");
      [|destruct (str_eqb feature "validate"
                  || str_eqb feature "validation");
        [|destruct (str_eqb feature "search")]]].
  - unfold _generate_login_test. eexists _, _.
    split_template. reflexivity.
  - unfold _generate_register_test. eexists _, _.
    split_template. reflexivity.
  - unfold _generate_validation_test. eexists _, _.
    split_template. reflexivity.
  - unfold _generate_search_test. eexists _, _.
    split_template. reflexivity.
  - unfold _generate_generic_test. eexists _, _.
    split_template. reflexivity.
Qed.

(** C2.  For every input string, [parse_requirement] keeps the input
    untouched in [original_text], and the source text generated from the
    parsed record has the input verbatim inside its documentation block,
    right after the function header. *)
Theorem synthesize_embeds_text (requirement_text : str) :
  (parse_requirement requirement_text).(original_text)
  = Some requirement_text
  /\ exists test_name feature_label conditions expected body,
       generate_test_from_requirement (parse_requirement requirement_text)
       = unlines ["def " ++ test_name ++ "():"]
         ++ Spec.docstring_block requirement_text feature_label
              conditions expected
         ++ body.
Proof.
  split; [reflexivity|].
  unfold generate_test_from_requirement. cbn [get parse_requirement
    RequirementsParser.feature RequirementsParser.conditions
    RequirementsParser.expected RequirementsParser.original_text].
  match goal with
  | |- context [_generate_test_code ?n ?f ?c ?e ?o] =>
      destruct (generate_test_code_docstring n f c e o)
        as (label & body & ->)
  end.
  eexists _, _, _, _, _. reflexivity.
Qed.

Lemma replace_space_hyphen (s : str) :
  replace "-" "_" (replace " " "_" s) = map Spec.clean_char s.
Proof.
  unfold replace. rewrite map_map. apply map_ext. intros c.
  unfold Spec.clean_char.
  destruct (Ascii.eqb c " ") eqn:E1; [reflexivity|].
  destruct (Ascii.eqb c "-"); reflexivity.
Qed.

Lemma clean_char_safe (c : ascii) :
  Spec.clean_char c <> " "%char /\ Spec.clean_char c <> "-"%char.
Proof.
  unfold Spec.clean_char.
  destruct (Ascii.eqb c " ") eqn:E1; [split; discriminate|].
  destruct (Ascii.eqb c "-") eqn:E2; [split; discriminate|].
  apply Ascii.eqb_neq in E1, E2. auto.
Qed.

Lemma split_cons_nonempty (sep : ascii) (s : str) : split sep s <> [].
Proof.
  destruct s as [|c s]; simpl; [discriminate|].
  destruct (Ascii.eqb c sep); [discriminate|].
  destruct (split sep s); discriminate.
Qed.

(** The pieces of [split] are made of characters of the string, and none
    contains the separator. *)
Lemma split_pieces (P : ascii -> Prop) (sep : ascii) (s : str) :
  Forall P s ->
  Forall (fun w => Forall P w /\ ~ In sep w) (split sep s).
Proof.
  induction 1 as [|c s Hc Hs IH]; simpl.
  - repeat constructor. intros [].
  - destruct (Ascii.eqb c sep) eqn:E.
    + constructor; [|exact IH]. split; [constructor|intros []].
    + apply Ascii.eqb_neq in E.
      destruct (split sep s) as [|w ws]; [repeat constructor; auto|].
      * intros [H|[]]. congruence.
      * inversion IH as [|? ? [Hw Hn] Hws]; subst.
        constructor; [|exact Hws]. split; [now constructor|].
        intros [H|H]; [congruence|contradiction].
Qed.

Lemma join_as_concat (sep : str) (ws : list str) :
  ws <> [] -> sep ++ join sep ws = List.concat (map (fun w => sep ++ w) ws).
Proof.
  induction ws as [|w ws IH]; [congruence|]. intros _.
  destruct ws as [|w' ws].
  - simpl. now rewrite app_nil_r.
  - change (join sep (w :: w' :: ws)) with (w ++ sep ++ join sep (w' :: ws)).
    rewrite IH by discriminate. cbn [map List.concat].
    now rewrite app_assoc.
Qed.

Lemma mem_false (x : str) (words : list str) :
  mem x words = false -> ~ In x words.
Proof.
  unfold mem. intros H Hin.
  assert (existsb (str_eqb x) words = true); [|congruence].
  apply existsb_exists. exists x. split; [exact Hin|apply str_eqb_refl].
Qed.

(** C9 as stated fails: runs of separators are not merged (the second
    token below is empty) and other punctuation is kept. *)
Lemma generate_test_name_counterexample :
  _generate_test_name "login" [("valid  email" : str)]
    <> Spec.test_name "login" [("valid  email" : str)]
  /\ _generate_test_name "sign.up" [] <> Spec.test_name "sign.up" [].
Proof. split; vm_compute; discriminate. Qed.

(** C9, amended.  The name is "test_", then the feature with each space
    and each hyphen turned into an underscore, then an underscore and a
    token for each of at most two tokens.  The tokens are the first two
    pieces, outside the stop words, of the first condition cleaned the
    same way and cut at every underscore; there are none when the list of
    conditions is empty or is the sentinel list.  A token holds no space,
    hyphen or underscore, and may be empty. *)
Theorem generate_test_name_shape (feature : str) (conditions : list str) :
  let tokens :=
    match conditions with
    | [] => []
    | first :: _ =>
        if list_eqb conditions Spec.sentinel then []
        else firstn 2
               (filter (fun w => negb (mem w Spec.stop_words))
                  (split "_" (map Spec.clean_char first)))
    end in
  _generate_test_name feature conditions
  = "test_" ++ map Spec.clean_char feature
    ++ List.concat (map (fun w => "_" ++ w) tokens)
  /\ List.length tokens <= 2
  /\ Forall (fun w => ~ In w Spec.stop_words /\ ~ In "_"%char w
                      /\ ~ In " "%char w /\ ~ In "-"%char w) tokens.
Proof.
  intros tokens. split; [|split].
  - unfold _generate_test_name. rewrite replace_space_hyphen.
    do 2 f_equal. subst tokens.
    destruct conditions as [|first rest]; [reflexivity|].
    change [("no specific conditions" : str)] with Spec.sentinel.
    destruct (list_eqb (first :: rest) Spec.sentinel); [reflexivity|].
    cbn [negb]. rewrite replace_space_hyphen.
    change stop_words with Spec.stop_words.
    destruct (filter _ _) as [|w ws] eqn:F; [reflexivity|].
    change ("_" ++ join "_" (firstn 2 (w :: ws)))
      with (("_" : str) ++ join "_" (firstn 2 (w :: ws))).
    apply join_as_concat. discriminate.
  - subst tokens. destruct conditions as [|first rest]; [simpl; lia|].
    destruct (list_eqb _ _); [simpl; lia|]. apply firstn_le_length.
  - subst tokens. destruct conditions as [|first rest]; [constructor|].
    destruct (list_eqb _ _); [constructor|].
    apply firstn_Forall, Forall_forall. intros w Hw.
    apply filter_In in Hw as [Hw Hstop].
    apply negb_true_iff, mem_false in Hstop.
    assert (Hclean : Forall (fun c => c <> " "%char /\ c <> "-"%char)
                       (map Spec.clean_char first)).
    { apply Forall_forall. intros c Hc.
      apply in_map_iff in Hc as (x & <- & _). apply clean_char_safe. }
    pose proof (split_pieces "_" Hclean) as Hp.
    rewrite Forall_forall in Hp. destruct (Hp w Hw) as [Hchars Hsep].
    rewrite Forall_forall in Hchars.
    repeat split; auto.
    + intros Hin. now destruct (Hchars _ Hin).
    + intros Hin. now destruct (Hchars _ Hin).
Qed.

(** ** test_generator.py: one file per feature *)

Lemma mem_true (x : str) (words : list str) :
  mem x words = true <-> In x words.
Proof.
  unfold mem. rewrite existsb_exists. split.
  - intros (y & Hy & E). apply str_eqb_eq in E. now subst.
  - intros H. exists x. split; [exact H|apply str_eqb_refl].
Qed.

Lemma mem_In_false (x : str) (words : list str) :
  ~ In x words -> mem x words = false.
Proof.
  intros H. destruct (mem x words) eqn:E; [|reflexivity].
  apply mem_true in E. contradiction.
Qed.

Lemma first_occurrences_In (l seen : list str) (f : str) :
  In f (Spec.first_occurrences seen l) <-> In f l /\ ~ In f seen.
Proof.
  revert seen. induction l as [|x l IH]; intros seen; simpl; [tauto|].
  destruct (mem x seen) eqn:E.
  - rewrite IH. apply mem_true in E. split; [tauto|].
    intros [[<-|H] Hn]; [contradiction|tauto].
  - assert (Hx : ~ In x seen) by now apply mem_false.
    simpl. rewrite IH, in_app_iff. simpl. split.
    + intros [<-|(H & Hn)]; tauto.
    + intros [[<-|H] Hn]; [tauto|].
      destruct (str_eqb x f) eqn:Exf.
      * apply str_eqb_eq in Exf. tauto.
      * apply str_eqb_neq in Exf. right. tauto.
Qed.

Lemma first_occurrences_NoDup (l seen : list str) :
  NoDup (Spec.first_occurrences seen l).
Proof.
  revert seen. induction l as [|x l IH]; intros seen; simpl;
    [constructor|].
  destruct (mem x seen); [apply IH|].
  constructor; [|apply IH].
  rewrite first_occurrences_In, in_app_iff. simpl. tauto.
Qed.

Lemma NoDup_snoc (A : Type) (l : list A) (x : A) :
  NoDup l -> ~ In x l -> NoDup (l ++ [x]).
Proof.
  induction 1 as [|y l Hy Hl IH]; simpl; intros Hx.
  - constructor; [intros []|constructor].
  - constructor; [|apply IH; tauto].
    rewrite in_app_iff. simpl. intros [H|[H|[]]]; [tauto|].
    subst. tauto.
Qed.

Section Grouping.

(** The grouping key of a requirement: [req.get('feature', 'unknown')]. *)
Let key (r : requirement) : str := get r.(feature) ("unknown" : str).
Let has (f : str) (r : requirement) : bool := str_eqb (key r) f.

(** One turn of the grouping loop. *)
Let step (d : groups) (req : requirement) : groups :=
  dict_append (key req) req
    (if negb (dict_mem (key req) d) then dict_set (key req) [] d else d).

Lemma dict_mem_keys (k : str) (d : groups) :
  dict_mem k d = mem k (map fst d).
Proof.
  induction d as [|[k' v] d IH]; simpl; [reflexivity|].
  rewrite IH. f_equal.
  destruct (str_eqb k' k) eqn:E.
  - apply str_eqb_eq in E. subst. symmetry. apply str_eqb_refl.
  - apply str_eqb_neq in E. symmetry. apply str_eqb_neq. congruence.
Qed.

Lemma dict_set_absent (k : str) (v : list requirement) (d : groups) :
  ~ In k (map fst d) -> dict_set k v d = d ++ [(k, v)].
Proof.
  induction d as [|[k' v'] d IH]; simpl; intros H; [reflexivity|].
  destruct (str_eqb k' k) eqn:E.
  - apply str_eqb_eq in E. tauto.
  - rewrite IH by tauto. reflexivity.
Qed.

Lemma dict_append_last (k : str) (req : requirement)
  (v : list requirement) (d : groups) :
  ~ In k (map fst d) ->
  dict_append k req (d ++ [(k, v)]) = d ++ [(k, v ++ [req])].
Proof.
  induction d as [|[k' v'] d IH]; simpl; intros H.
  - now rewrite str_eqb_refl.
  - destruct (str_eqb k' k) eqn:E.
    + apply str_eqb_eq in E. tauto.
    + rewrite IH by tauto. reflexivity.
Qed.

Lemma dict_append_present (k : str) (req : requirement) (d : groups) :
  NoDup (map fst d) ->
  dict_append k req d
  = map (fun kv => (fst kv, if str_eqb (fst kv) k
                            then snd kv ++ [req] else snd kv)) d.
Proof.
  induction d as [|[k' v] d IH]; simpl; intros H; [reflexivity|].
  inversion H as [|? ? Hk Hd]; subst.
  destruct (str_eqb k' k) eqn:E.
  - f_equal. apply str_eqb_eq in E. subst k'.
    clear IH H Hd. induction d as [|[k2 v2] d IH]; [reflexivity|].
    simpl in *. destruct (str_eqb k2 k) eqn:E2.
    + apply str_eqb_eq in E2. tauto.
    + rewrite <- IH by tauto. reflexivity.
  - now rewrite IH.
Qed.

(** The dictionary after the loop, from any dictionary with distinct
    keys: the groups present grow by the requirements of their feature,
    and the new features follow in the order they are first met. *)
Lemma fold_step (requirements : list requirement) :
  forall d : groups,
    NoDup (map fst d) ->
    fold_left step requirements d
    = map (fun kv => (fst kv, snd kv ++ filter (has (fst kv)) requirements))
        d
      ++ map (fun f => (f, filter (has f) requirements))
           (Spec.first_occurrences (map fst d) (map key requirements)).
Proof.
  induction requirements as [|req reqs IH]; intros d Hd.
  - simpl. rewrite app_nil_r. rewrite <- (map_id d) at 1.
    apply map_ext. intros [k v]. simpl. now rewrite app_nil_r.
  - cbn [fold_left map Spec.first_occurrences].
    unfold step at 2. rewrite dict_mem_keys.
    destruct (mem (key req) (map fst d)) eqn:M; cbn [negb].
    + rewrite dict_append_present by exact Hd.
      rewrite IH by (now rewrite map_map, map_ext with (g := fst)).
      rewrite !map_map. cbn [fst snd].
      rewrite map_ext with (g := fst) by reflexivity.
      f_equal.
      * apply map_ext. intros [k v]. cbn [fst snd filter].
        destruct (has k req) eqn:E; unfold has in E.
        -- apply str_eqb_eq in E. subst k. rewrite str_eqb_refl.
           now rewrite <- app_assoc.
        -- destruct (str_eqb k (key req)) eqn:E'; [|reflexivity].
           apply str_eqb_eq in E'. subst k.
           now rewrite str_eqb_refl in E.
      * apply map_ext_in. intros f Hf. cbn [filter].
        destruct (has f req) eqn:E; [|reflexivity].
        unfold has in E. apply str_eqb_eq in E. subst f.
        apply first_occurrences_In in Hf as [_ Hf].
        apply mem_true in M. contradiction.
    + assert (Hk : ~ In (key req) (map fst d)) by now apply mem_false.
      rewrite dict_set_absent, dict_append_last by exact Hk.
      rewrite IH.
      2:{ rewrite map_app. simpl. now apply NoDup_snoc. }
      rewrite !map_app. cbn [map fst snd app filter].
      replace (has (key req) req) with true
        by (unfold has; symmetry; apply str_eqb_refl).
      rewrite <- app_assoc. cbn [app]. f_equal.
      * apply map_ext_in. intros [k v] Hkv. cbn [fst snd].
        destruct (has k req) eqn:E; [|reflexivity].
        unfold has in E. apply str_eqb_eq in E. subst k. exfalso.
        apply Hk. apply in_map_iff. exists (key req, v). auto.
      * f_equal. apply map_ext_in. intros f Hf.
        destruct (has f req) eqn:E; [|reflexivity].
        unfold has in E. apply str_eqb_eq in E. subst f.
        apply first_occurrences_In in Hf as [_ Hf].
        exfalso. apply Hf. apply in_app_iff. simpl. auto.
Qed.

(** The grouping loop in closed form. *)
Lemma group_by_feature_closed (requirements : list requirement) :
  group_by_feature requirements
  = map (fun f => (f, filter (has f) requirements))
      (Spec.first_occurrences [] (map key requirements)).
Proof.
  unfold group_by_feature. change (fold_left _ requirements [])
    with (fold_left step requirements []).
  rewrite fold_step by constructor. reflexivity.
Qed.

End Grouping.

Lemma store_get_write_same (path content : str) (fs : store) :
  store_get path (store_write path content fs) = Some content.
Proof.
  induction fs as [|[p old] fs IH]; simpl.
  - now rewrite str_eqb_refl.
  - destruct (str_eqb p path) eqn:E; simpl; rewrite E; auto.
Qed.

Lemma store_get_write_other (path other content : str) (fs : store) :
  other <> path ->
  store_get other (store_write path content fs) = store_get other fs.
Proof.
  intros Hne. induction fs as [|[p old] fs IH]; simpl.
  - destruct (str_eqb path other) eqn:E; [|reflexivity].
    apply str_eqb_eq in E. congruence.
  - destruct (str_eqb p path) eqn:E; simpl.
    + apply str_eqb_eq in E. subst p.
      destruct (str_eqb path other) eqn:E'; [|reflexivity].
      apply str_eqb_eq in E'. congruence.
    + now rewrite IH.
Qed.

(** The path of the file of a feature determines the feature. *)
Lemma feature_path_inj (dir f g : str) :
  path_join dir ("test_" ++ f ++ ".py") = path_join dir ("test_" ++ g ++ ".py")
  -> f = g.
Proof.
  unfold path_join. cbn [startswith strip_prefix list_ascii_of_string app].
  cbn [Ascii.eqb Bool.eqb].
  destruct (match dir with [] => true | _ :: _ => endswith_sep dir end);
    intros H; apply app_inv_head in H.
  - injection H as H. now apply app_inv_tail in H.
  - injection H as H. now apply app_inv_tail in H.
Qed.


Section Files.
Variable strftime_now : nat -> str -> str.
Variable can_open : str -> bool.
Variable self : generator.

Let path (f : str) : str :=
  path_join self.(output_dir) ("test_" ++ f ++ ".py").

(** The line of the header that counts the test cases. *)
Let count_line (reqs : list requirement) : str :=
  "Number of test cases: " ++ str_of_int (Z.of_nat (List.length reqs)).

(** The text of a file: a header that counts the requirements, then the
    tests generated from them, two line feeds apart. *)
Let file_text (header : str) (reqs : list requirement) : str :=
  header ++ join (nl ++ nl) (map generate_test_from_requirement reqs).

Lemma file_header_count (created : str) (count : nat) :
  Spec.substring ("Number of test cases: " ++ str_of_int (Z.of_nat count))
    (file_header created count).
Proof.
  unfold file_header.
  match goal with
  | |- Spec.substring _ (unlines ?ls) =>
      rewrite (unlines_split 3 ls); cbn [firstn skipn];
      match goal with
      | |- Spec.substring _ (_ ++ unlines ?rest) =>
          rewrite (unlines_split 1 rest); cbn [firstn skipn]
      end
  end.
  match goal with
  | |- Spec.substring _ (?before ++ unlines [_] ++ ?after) =>
      exists before, (nl ++ after)
  end.
  f_equal. unfold unlines at 1. cbn [map List.concat].
  now rewrite app_nil_r, <- app_assoc.
Qed.

(** One call of [generate_test_file] with a file name: the clock is read,
    then the file is written and its text returned, or [open] raises. *)
Lemma generate_test_file_outcome (reqs : list requirement)
  (name : list ascii) (w : world) :
  exists header,
    Spec.substring (count_line reqs) header
    /\ generate_test_file strftime_now can_open self reqs (Some name) w
       = if can_open (path_join self.(output_dir) name)
         then (inr (file_text header reqs),
               mkWorld (store_write (path_join self.(output_dir) name)
                          (file_text header reqs) w.(files))
                 (S w.(ticks)))
         else (inl (OpenFailed (path_join self.(output_dir) name)),
               mkWorld w.(files) (S w.(ticks))).
Proof.
  exists (file_header (strftime_now w.(ticks) "%Y-%m-%d %H:%M:%S")
            (List.length reqs)).
  split; [apply file_header_count|].
  unfold generate_test_file, Generator.bind, Generator.ret,
    now_strftime, write_file. cbn [files ticks].
  destruct (can_open (path_join (output_dir self) name)); reflexivity.
Qed.

Lemma generate_group_files_success (items : groups) :
  Forall (fun item => can_open (path (fst item)) = true) items ->
  forall (acc : list str) (w : world),
    exists w',
      generate_group_files strftime_now can_open self items acc w
      = (inr (acc ++ map path (map fst items)), w')
      /\ ticks w' = w.(ticks) + List.length items
      /\ (forall p, ~ In p (map path (map fst items)) ->
            store_get p (files w') = store_get p w.(files))
      /\ (NoDup (map fst items) ->
          forall f reqs, In (f, reqs) items ->
            exists header,
              Spec.substring (count_line reqs) header
              /\ store_get (path f) (files w')
                 = Some (file_text header reqs)).
Proof.
  induction 1 as [|[f reqs] items Hopen Hitems IH]; intros acc w.
  - exists w. cbn. rewrite app_nil_r. repeat split; auto.
    intros _ f reqs [].
  - destruct (generate_test_file_outcome reqs ("test_" ++ f ++ ".py") w)
      as (header & Hcount & Hrun).
    cbn [fst] in Hopen. fold (path f) in Hrun. rewrite Hopen in Hrun.
    set (w1 := mkWorld (store_write (path f) (file_text header reqs)
                          w.(files)) (S w.(ticks))) in *.
    assert (Hstep : generate_group_files strftime_now can_open self
                      ((f, reqs) :: items) acc w
                    = generate_group_files strftime_now can_open self
                        items (acc ++ [path f]) w1).
    { cbn [generate_group_files]. unfold Generator.bind at 1.
      now rewrite Hrun. }
    rewrite Hstep.
    destruct (IH (acc ++ [path f]) w1)
      as (w' & Hres & Hticks & Hother & Hwritten).
    exists w'. split; [|split; [|split]].
    + rewrite Hres. now rewrite <- app_assoc.
    + rewrite Hticks. cbn. lia.
    + intros p Hp. cbn [map] in Hp. rewrite Hother by (cbn in Hp; tauto).
      cbn [files]. apply store_get_write_other. intros ->. apply Hp.
      now left.
    + intros Hnd g greqs [[= <- <-]|Hin].
      * exists header. split; [exact Hcount|].
        rewrite Hother.
        -- cbn [files]. apply store_get_write_same.
        -- cbn [map] in Hnd. inversion Hnd as [|? ? Hf _]; subst.
           rewrite in_map_iff. intros (g & Hg & Hgin).
           apply feature_path_inj in Hg. subst g. contradiction.
      * cbn [map] in Hnd. inversion Hnd; subst. now apply Hwritten.
Qed.

Lemma generate_group_files_failure (done rest : groups) (f : str)
  (reqs : list requirement) :
  Forall (fun item => can_open (path (fst item)) = true) done ->
  can_open (path f) = false ->
  forall (acc : list str) (w : world),
    exists w',
      generate_group_files strftime_now can_open self
        (done ++ (f, reqs) :: rest) acc w
      = (inl (OpenFailed (path f)), w')
      /\ ticks w' = w.(ticks) + List.length done + 1
      /\ (forall p, ~ In p (map path (map fst done)) ->
            store_get p (files w') = store_get p w.(files))
      /\ (NoDup (map fst done) ->
          Forall (fun item => store_get (path (fst item)) (files w') <> None)
            done).
Proof.
  intros Hdone Hf. induction Hdone as [|[g greqs] done Hopen Hdone IH];
    intros acc w.
  - destruct (generate_test_file_outcome reqs ("test_" ++ f ++ ".py") w)
      as (header & _ & Hrun).
    fold (path f) in Hrun. rewrite Hf in Hrun.
    assert (Hstep : generate_group_files strftime_now can_open self
                      ([] ++ (f, reqs) :: rest) acc w
                    = (inl (OpenFailed (path f)),
                       mkWorld w.(files) (S w.(ticks)))).
    { cbn [app generate_group_files]. unfold Generator.bind at 1.
      now rewrite Hrun. }
    rewrite Hstep. eexists. split; [reflexivity|].
    split; [cbn; lia|]. split; [reflexivity|constructor].
  - destruct (generate_test_file_outcome greqs ("test_" ++ g ++ ".py") w)
      as (header & _ & Hrun).
    cbn [fst] in Hopen. fold (path g) in Hrun. rewrite Hopen in Hrun.
    set (w1 := mkWorld (store_write (path g) (file_text header greqs)
                          w.(files)) (S w.(ticks))) in *.
    assert (Hstep : generate_group_files strftime_now can_open self
                      (((g, greqs) :: done) ++ (f, reqs) :: rest) acc w
                    = generate_group_files strftime_now can_open self
                        (done ++ (f, reqs) :: rest) (acc ++ [path g]) w1).
    { cbn [app generate_group_files]. unfold Generator.bind at 1.
      now rewrite Hrun. }
    rewrite Hstep.
    destruct (IH (acc ++ [path g]) w1)
      as (w' & Hres & Hticks & Hother & Hwritten).
    exists w'. split; [exact Hres|]. split; [rewrite Hticks; cbn; lia|].
    split.
    + intros p Hp. cbn [map] in Hp. rewrite Hother by (cbn in Hp; tauto).
      cbn [files]. apply store_get_write_other. intros ->. apply Hp.
      now left.
    + intros Hnd. cbn [map] in Hnd. inversion Hnd as [|? ? Hg Hnd']; subst.
      constructor; [|now apply Hwritten]. cbn [fst]. rewrite Hother.
      * subst w1. cbn [files]. rewrite store_get_write_same. discriminate.
      * rewrite in_map_iff. intros (h & Hh & Hhin).
        apply feature_path_inj in Hh. subst h. contradiction.
Qed.

(** Either every file can be opened, or there is a first one that
    cannot. *)
Lemma first_unopenable (items : groups) :
  Forall (fun item => can_open (path (fst item)) = true) items
  \/ exists done f reqs rest,
       items = done ++ (f, reqs) :: rest
       /\ Forall (fun item => can_open (path (fst item)) = true) done
       /\ can_open (path f) = false.
Proof.
  induction items as [|[f reqs] items IH]; [left; constructor|].
  destruct (can_open (path f)) eqn:E.
  - destruct IH as [IH|(done & g & greqs & rest & -> & Hdone & Hg)].
    + left. now constructor.
    + right. exists ((f, reqs) :: done), g, greqs, rest.
      repeat split; auto.
  - right. exists [], f, reqs, items. repeat split; auto.
Qed.

End Files.




(** ** executor.py *)

Import TestReporter.

(** C6.  The status message says "all tests passed" for exit code 0, "some
    tests failed" for 1, "no tests collected" for 5 and "unknown exit code"
    for every other exit code, where it ends with the exit code in
    decimal; the full texts are those of the source. *)
Theorem status_message_by_exit_code (exit_code : Z) :
  (_get_status_message 0 = "🎉 All tests passed!"
   /\ _get_status_message 1 = "❌ Some tests failed"
   /\ _get_status_message 5 = "⚠️ No tests collected")
  /\ (Spec.says "all tests passed" (_get_status_message 0) = true
      /\ Spec.says "some tests failed" (_get_status_message 1) = true
      /\ Spec.says "no tests collected" (_get_status_message 5) = true)
  /\ (exit_code <> 0%Z -> exit_code <> 1%Z -> exit_code <> 5%Z ->
      _get_status_message exit_code
      = "❓ Unknown exit code: " ++ str_of_int exit_code
      /\ Spec.says "unknown exit code" (_get_status_message exit_code)
         = true).
Proof.
  split; [repeat split|split; [repeat split|]].
  intros H0 H1 H5.
  assert (E : _get_status_message exit_code
              = "❓ Unknown exit code: " ++ str_of_int exit_code).
  { unfold _get_status_message.
    destruct (Z.eqb_spec exit_code 0); [contradiction|].
    destruct (Z.eqb_spec exit_code 1); [contradiction|].
    destruct (Z.eqb_spec exit_code 5); [contradiction|reflexivity]. }
  split; [exact E|]. rewrite E. unfold Spec.says. rewrite map_app.
  apply contains_iff.
  exists (firstn 4 ("❓ Unknown exit code: " : str)),
    (": " ++ map Spec.ascii_fold (str_of_int exit_code)).
  rewrite app_assoc, (app_assoc _ ": "). f_equal.
Qed.

(** The message for an exit code other than 0, 1 and 5, on the exit code
    of a run killed by signal 9. *)
Lemma status_message_by_exit_code_witness :
  _get_status_message (-9)
  = "❓ Unknown exit code: " ++ ("-9" : str)
  /\ Spec.says "unknown exit code" (_get_status_message (-9)) = true.
Proof.
  apply (proj2 (proj2 (status_message_by_exit_code (-9))));
    discriminate.
Defined.

(** C7.  When the test run exceeds its timeout, each of the three
    report-running operations returns a record whose success flag is
    false, and raises nothing. *)
Theorem timeout_returns_failure (self : reporter)
  (test_files : option (list str)) (e : env) (msg : str)
  (Htimeout : forall cmd,
      e.(subprocess_run) cmd (Some 300%Z) = raise (TimeoutExpired msg)) :
  (exists d, run_tests_with_html_report self test_files e = ret d
             /\ dict_get "success" d = Some (VBool false))
  /\ (exists d, run_tests_with_allure_report self test_files e = ret d
                /\ dict_get "success" d = Some (VBool false))
  /\ (exists d, run_tests_with_json_report self test_files e = ret d
                /\ dict_get "success" d = Some (VBool false)).
Proof.
  unfold run_tests_with_html_report, run_tests_with_allure_report,
    run_tests_with_json_report.
  repeat split; rewrite Htimeout; cbn [bind raise try_except
    on_timeout_or_exception on_exception];
    eexists; (split; [reflexivity|reflexivity]).
Qed.

Lemma timeout_returns_failure_witness :
  (exists d, run_tests_with_html_report Spec.default_reporter None
               Spec.slow_env = ret d
             /\ dict_get "success" d = Some (VBool false))
  /\ (exists d, run_tests_with_allure_report Spec.default_reporter None
                  Spec.slow_env = ret d
                /\ dict_get "success" d = Some (VBool false))
  /\ (exists d, run_tests_with_json_report Spec.default_reporter None
                  Spec.slow_env = ret d
                /\ dict_get "success" d = Some (VBool false)).
Proof.
  apply (@timeout_returns_failure Spec.default_reporter None Spec.slow_env
           "timed out").
  intros cmd. reflexivity.
Defined.

(** C8 as stated fails: the record returned after a timeout has no
    timestamp (nor exit code, output, report type or message). *)
Lemma timeout_record_counterexample :
  ~ (forall (self : reporter) (test_files : option (list str)) (e : env)
       (d : dict),
        run_tests_with_html_report self test_files e = ret d ->
        Spec.complete_record "HTML" d).
Proof.
  intros H.
  destruct (H Spec.default_reporter None Spec.slow_env _ eq_refl)
    as (timestamp & _ & _ & _ & Ht & _).
  vm_compute in Ht. discriminate.
Qed.

Ltac complete_record :=
  left; eexists _, _, _, _; repeat split; reflexivity.

Ltac error_record := right; eexists; reflexivity.

(** C8, amended.  What each report-running operation returns is
    decided by how the test process, started with a timeout of 300
    seconds, ends.  When it completes, the HTML run returns a record that
    carries the timestamp, the exit code, the success flag (true for exit
    code 0 alone), the standard output and error of that process, the tag
    "HTML" and the status message of the exit code; the Allure run does
    the same with the tag "Allure" once the Allure tool, started next,
    has ended, and the JSON run with the tag "JSON" once the report, when
    its file exists, has been loaded.  When the test process times out
    or raises, or the Allure tool or the loading of the report raises,
    the record holds nothing but an error text and a false success flag:
    the text "Test execution timed out" for a timeout in the HTML and
    Allure runs, the text of the exception otherwise.  Only an exception
    outside [Exception] is let through. *)
Theorem result_record_fields (self : reporter)
  (test_files : option (list str)) (e : env) :
  let timestamp := e.(now_strftime) "%Y%m%d_%H%M%S" in
  let html_report_path :=
    path_join self.(reports_dir) ("test_report_" ++ timestamp ++ ".html") in
  let allure_results_dir :=
    path_join self.(reports_dir) ("allure-results-" ++ timestamp) in
  let allure_report_dir :=
    path_join self.(reports_dir) ("allure-report-" ++ timestamp) in
  let json_report_path :=
    path_join self.(reports_dir) ("test_report_" ++ timestamp ++ ".json") in
  let html_cmd :=
    pytest_cmd self test_files
      [ "--html=" ++ html_report_path; "--self-contained-html" : str;
        "-v" : str; "--tb=short" : str ] in
  let allure_tests_cmd :=
    pytest_cmd self test_files
      [ "--alluredir=" ++ allure_results_dir; "--clean-alluredir" : str;
        "-v" : str ] in
  let allure_cmd :=
    [ "allure" : str; "generate" : str; allure_results_dir; "-o" : str;
      allure_report_dir; "--clean" : str ] in
  let json_cmd :=
    pytest_cmd self test_files
      [ "--json-report=" ++ json_report_path;
        "--json-report-summary" : str; "-v" : str ] in
  match e.(subprocess_run) html_cmd (Some 300%Z) with
  | inr result =>
      exists d,
        run_tests_with_html_report self test_files e = ret d
        /\ Spec.run_record "HTML" e.(now_isoformat) result d
  | inl (TimeoutExpired _) =>
      run_tests_with_html_report self test_files e
      = ret (Spec.error_only "Test execution timed out")
  | inl (OtherException message) =>
      run_tests_with_html_report self test_files e
      = ret (Spec.error_only message)
  | inl NonException =>
      run_tests_with_html_report self test_files e = raise NonException
  end
  /\ match e.(subprocess_run) allure_tests_cmd (Some 300%Z) with
     | inr result =>
         match e.(subprocess_run) allure_cmd None with
         | inr _ =>
             exists d,
               run_tests_with_allure_report self test_files e = ret d
               /\ Spec.run_record "Allure" e.(now_isoformat) result d
         | inl (TimeoutExpired _) =>
             run_tests_with_allure_report self test_files e
             = ret (Spec.error_only "Test execution timed out")
         | inl (OtherException message) =>
             run_tests_with_allure_report self test_files e
             = ret (Spec.error_only message)
         | inl NonException =>
             run_tests_with_allure_report self test_files e
             = raise NonException
         end
     | inl (TimeoutExpired _) =>
         run_tests_with_allure_report self test_files e
         = ret (Spec.error_only "Test execution timed out")
     | inl (OtherException message) =>
         run_tests_with_allure_report self test_files e
         = ret (Spec.error_only message)
     | inl NonException =>
         run_tests_with_allure_report self test_files e = raise NonException
     end
  /\ match e.(subprocess_run) json_cmd (Some 300%Z) with
     | inr result =>
         if e.(path_exists) json_report_path
         then match e.(load_json) json_report_path with
              | inr document =>
                  exists d,
                    run_tests_with_json_report self test_files e = ret d
                    /\ Spec.run_record "JSON" e.(now_isoformat) result d
                    /\ dict_get "json_data" d = Some (VJson document)
              | inl (TimeoutExpired message)
              | inl (OtherException message) =>
                  run_tests_with_json_report self test_files e
                  = ret (Spec.error_only message)
              | inl NonException =>
                  run_tests_with_json_report self test_files e
                  = raise NonException
              end
         else exists d,
                run_tests_with_json_report self test_files e = ret d
                /\ Spec.run_record "JSON" e.(now_isoformat) result d
                /\ dict_get "json_data" d = Some VNone
     | inl (TimeoutExpired message) | inl (OtherException message) =>
         run_tests_with_json_report self test_files e
         = ret (Spec.error_only message)
     | inl NonException =>
         run_tests_with_json_report self test_files e = raise NonException
     end.
Proof.
  unfold run_tests_with_html_report, run_tests_with_allure_report,
    run_tests_with_json_report, Spec.error_only.
  cbv zeta.
  split; [|split].
  - destruct (subprocess_run e _ _) as [[m|m|]|result];
      cbn [bind ret raise try_except on_timeout_or_exception];
      try reflexivity.
    eexists. split; [reflexivity|]. repeat split.
  - destruct (subprocess_run e _ (Some _)) as [[m|m|]|result];
      cbn [bind ret raise try_except on_timeout_or_exception];
      try reflexivity.
    destruct (subprocess_run e _ None) as [[m|m|]|allure_result];
      cbn [bind ret raise try_except on_timeout_or_exception];
      try reflexivity.
    eexists. split; [reflexivity|]. repeat split.
  - destruct (subprocess_run e _ _) as [[m|m|]|result];
      cbn [bind ret raise try_except on_exception];
      try reflexivity.
    destruct (path_exists e _);
      [destruct (load_json e _) as [[m|m|]|j]|];
      cbn [bind ret raise try_except on_exception];
      try reflexivity;
      (eexists; split; [reflexivity|]; repeat split).
Qed.

(** * Further properties of the code *)

(** ** Stripping *)

Lemma lstrip_decompose (s : str) :
  exists a, s = a ++ lstrip s /\ Forall (fun c => isspace c = true) a.
Proof.
  induction s as [|c s IH]; simpl.
  - exists []. auto.
  - destruct (isspace c) eqn:E.
    + destruct IH as (a & Hs & Ha). exists (c :: a).
      split; [simpl; congruence|now constructor].
    + exists []. auto.
Qed.

Lemma lstrip_head (s t : str) (c : ascii) :
  lstrip s = c :: t -> isspace c = false.
Proof.
  induction s as [|x s IH]; simpl; [discriminate|].
  destruct (isspace x) eqn:E; [exact IH|]. intros [= <- _]. exact E.
Qed.

Lemma lstrip_fixed (s : str) :
  match s with c :: _ => isspace c = false | [] => True end ->
  lstrip s = s.
Proof. destruct s as [|c s]; simpl; [reflexivity|]. now intros ->. Qed.

Lemma lstrip_idem (s : str) : lstrip (lstrip s) = lstrip s.
Proof.
  apply lstrip_fixed. destruct (lstrip s) as [|c t] eqn:E; [exact I|].
  eapply lstrip_head; eauto.
Qed.

Lemma lstrip_keeps_last (s : str) (c : ascii) :
  isspace c = false -> exists u, lstrip (s ++ [c]) = u ++ [c].
Proof.
  intros Hc. induction s as [|x s IH]; simpl.
  - rewrite Hc. exists []. reflexivity.
  - destruct (isspace x); [exact IH|]. exists (x :: s). reflexivity.
Qed.

(** [strip] leaves a string that neither starts nor ends with white
    space. *)
Lemma strip_ends (s : str) :
  lstrip (strip s) = strip s /\ lstrip (rev (strip s)) = rev (strip s).
Proof.
  unfold strip, rstrip. split.
  - destruct (lstrip s) as [|c t] eqn:E; [reflexivity|].
    pose proof (lstrip_head _ E) as Hc. simpl.
    destruct (@lstrip_keeps_last (rev t) c Hc) as (u & ->).
    rewrite rev_app_distr. simpl. now rewrite Hc.
  - rewrite rev_involutive. apply lstrip_idem.
Qed.

Lemma strip_fixed (s : str) :
  lstrip s = s -> lstrip (rev s) = rev s -> strip s = s.
Proof.
  intros H1 H2. unfold strip, rstrip. rewrite H1, H2.
  apply rev_involutive.
Qed.

Lemma strip_idem (s : str) : strip (strip s) = strip s.
Proof. destruct (strip_ends s). now apply strip_fixed. Qed.

(** What [strip] returns is a piece of its argument, between white space. *)
Lemma strip_decompose (s : str) :
  exists a b,
    s = a ++ strip s ++ b
    /\ Forall (fun c => isspace c = true) a
    /\ Forall (fun c => isspace c = true) b.
Proof.
  destruct (lstrip_decompose s) as (a & Hs & Ha).
  destruct (lstrip_decompose (rev (lstrip s))) as (b & Hr & Hb).
  exists a, (rev b). split; [|split; [exact Ha|now apply Forall_rev]].
  unfold strip, rstrip. rewrite <- rev_app_distr, <- Hr, rev_involutive.
  exact Hs.
Qed.

Lemma isspace_lower_char (c : ascii) : isspace (lower_char c) = isspace c.
Proof.
  destruct c as [[] [] [] [] [] [] [] []]; vm_compute; reflexivity.
Qed.

Lemma substring_strip_back (needle s : str) :
  Spec.substring needle (strip s) -> Spec.substring needle s.
Proof.
  intros (x & y & H). destruct (strip_decompose s) as (a & b & Hs & _).
  exists (a ++ x), (y ++ b). rewrite Hs, H.
  now rewrite <- !app_assoc.
Qed.

Lemma substring_lstrip (needle s : str) (c : ascii) :
  isspace c = false ->
  Spec.substring (c :: needle) s -> Spec.substring (c :: needle) (lstrip s).
Proof.
  intros Hc (x & y & ->). induction x as [|d x IH]; simpl.
  - rewrite Hc. exists [], y. reflexivity.
  - destruct (isspace d); [exact IH|].
    exists (d :: x), y. reflexivity.
Qed.

Lemma substring_rev (needle s : str) :
  Spec.substring needle s -> Spec.substring (rev needle) (rev s).
Proof.
  intros (x & y & ->). exists (rev y), (rev x).
  now rewrite !rev_app_distr, <- app_assoc.
Qed.

(** A word that neither starts nor ends with white space is found in the
    stripped text as soon as it is found in the text. *)
Lemma substring_strip (needle s : str) :
  needle <> [] ->
  lstrip needle = needle -> lstrip (rev needle) = rev needle ->
  Spec.substring needle s -> Spec.substring needle (strip s).
Proof.
  intros Hne H1 H2 H. unfold strip, rstrip.
  destruct needle as [|c n]; [congruence|].
  assert (Hc : isspace c = false) by (eapply lstrip_head; eauto).
  apply (@substring_lstrip n _ c Hc) in H.
  apply substring_rev in H.
  destruct (rev (c :: n)) as [|d m] eqn:E.
  { apply (f_equal (@List.length ascii)) in E. rewrite length_rev in E.
    discriminate. }
  assert (Hd : isspace d = false) by (eapply lstrip_head; eauto).
  apply (@substring_lstrip m _ d Hd) in H.
  apply substring_rev in H. rewrite <- E, rev_involutive in H. exact H.
Qed.

Lemma contains_strip (needle s : str) :
  needle <> [] ->
  lstrip needle = needle -> lstrip (rev needle) = rev needle ->
  contains needle (strip s) = contains needle s.
Proof.
  intros Hne H1 H2.
  destruct (contains needle s) eqn:E.
  - apply contains_iff. apply substring_strip; auto.
    now apply contains_iff.
  - destruct (contains needle (strip s)) eqn:E'; [|reflexivity].
    apply contains_iff, substring_strip_back, contains_iff in E'.
    congruence.
Qed.

(** ** requirements_parser.py: case, white space and precedence *)

Lemma normalise_idem (requirement_text : str) :
  strip (lower (strip (lower requirement_text)))
  = strip (lower requirement_text).
Proof.
  rewrite (@lowercase_fixed (strip (lower requirement_text))).
  - apply strip_idem.
  - apply strip_Forall, lower_not_upper.
Qed.

(** X1.  Parsing the normalised text (lower-cased, trimmed) of a
    requirement gives the same feature, conditions and expected outcome
    as parsing the requirement itself; only [original_text] differs. *)
Theorem parse_normalised_text (requirement_text : str) :
  let text := strip (lower requirement_text) in
  (parse_requirement text).(feature)
  = (parse_requirement requirement_text).(feature)
  /\ (parse_requirement text).(conditions)
     = (parse_requirement requirement_text).(conditions)
  /\ (parse_requirement text).(expected)
     = (parse_requirement requirement_text).(expected)
  /\ (parse_requirement text).(original_text) = Some text.
Proof.
  intros text. unfold parse_requirement. cbn [feature conditions expected
    original_text]. subst text. rewrite normalise_idem. auto.
Qed.

Lemma first_keyword_app (before after : list str) (kw text : str) :
  Forall (fun w => contains w text = false) before ->
  contains kw text = true ->
  first_keyword (before ++ kw :: after) text = Some kw.
Proof.
  induction 1 as [|w before Hw Hb IH]; simpl; intros Hk.
  - now rewrite Hk.
  - rewrite Hw. now apply IH.
Qed.

Lemma keywords_strippable :
  Forall (fun w : str => w <> [] /\ lstrip w = w
                         /\ lstrip (rev w) = rev w)
    action_keywords.
Proof. repeat constructor; discriminate. Qed.

(** X2.  Keywords are found whatever the letter case and the white space
    around the requirement: when a vocabulary word occurs in the
    lower-cased requirement and no earlier word of the vocabulary does,
    it is the feature. *)
Theorem feature_keyword_any_case (requirement_text kw : str)
  (before after : list str)
  (Hvocabulary : action_keywords = before ++ kw :: after)
  (Hoccurs : contains kw (lower requirement_text) = true)
  (Hearlier : Forall (fun w => contains w (lower requirement_text) = false)
                before) :
  (parse_requirement requirement_text).(feature) = Some kw.
Proof.
  unfold parse_requirement. cbn [feature]. f_equal.
  unfold _extract_feature.
  pose proof keywords_strippable as Hall.
  rewrite Hvocabulary in *. rewrite Forall_forall in Hall.
  rewrite first_keyword_app; [reflexivity| |].
  - apply Forall_forall. intros w Hw.
    destruct (Hall w) as (Hne & H1 & H2);
      [apply in_or_app; auto|].
    rewrite contains_strip by assumption.
    rewrite Forall_forall in Hearlier. now apply Hearlier.
  - destruct (Hall kw) as (Hne & H1 & H2);
      [apply in_or_app; simpl; auto|].
    now rewrite contains_strip by assumption.
Qed.

Lemma feature_keyword_any_case_witness :
  (parse_requirement "  Users can REGISTER, then Search.  ").(feature)
  = Some ("register" : str).
Proof.
  apply (@feature_keyword_any_case
           "  Users can REGISTER, then Search.  " "register"
           [("login" : str)]
           (map list_ascii_of_string
              ["validate"; "authenticate"; "create"; "delete"; "update";
               "view"; "display"; "search"]%string)).
  - reflexivity.
  - vm_compute. reflexivity.
  - repeat constructor.
Defined.

(** X3.  "successful" wins over every other cue: a requirement that
    contains it, in any letter case, is expected to end in "successful"
    followed by its feature, also when it speaks of failure or error. *)
Theorem expected_successful_first (requirement_text : str)
  (Hsuccessful : contains "successful" (lower requirement_text) = true) :
  exists f,
    (parse_requirement requirement_text).(feature) = Some f
    /\ (parse_requirement requirement_text).(expected)
       = Some ("successful " ++ f).
Proof.
  exists (_extract_feature (strip (lower requirement_text))).
  split; [reflexivity|].
  unfold parse_requirement. cbn [expected]. f_equal.
  unfold _extract_expected_outcome.
  rewrite contains_strip, Hsuccessful by (reflexivity || discriminate).
  reflexivity.
Qed.

Lemma expected_successful_first_witness :
  exists f,
    (parse_requirement "A Successful login must not show an error").(feature)
    = Some f
    /\ (parse_requirement "A Successful login must not show an error").(expected)
       = Some ("successful " ++ f).
Proof.
  apply (@expected_successful_first
           "A Successful login must not show an error").
  vm_compute. reflexivity.
Defined.

(** X4.  Without "successful", a requirement that contains "failure" or
    "error", in any letter case, is expected to end in "failure or error
    message", whatever follows its "should". *)
Theorem expected_failure_second (requirement_text : str)
  (Hsuccessful : contains "successful" (lower requirement_text) = false)
  (Hfailure : contains "failure" (lower requirement_text)
              || contains "error" (lower requirement_text) = true) :
  (parse_requirement requirement_text).(expected)
  = Some ("failure or error message" : str).
Proof.
  unfold parse_requirement. cbn [expected]. f_equal.
  unfold _extract_expected_outcome.
  rewrite !contains_strip by (reflexivity || discriminate).
  now rewrite Hsuccessful, Hfailure.
Qed.

Lemma expected_failure_second_witness :
  (parse_requirement "The form should show an ERROR for bad input.").(expected)
  = Some ("failure or error message" : str).
Proof.
  apply (@expected_failure_second
           "The form should show an ERROR for bad input.");
    vm_compute; reflexivity.
Defined.

Lemma take_while_Forall (p : ascii -> bool) (s : str) :
  Forall (fun c => p c = true) (Spec.take_while p s).
Proof.
  induction s as [|c s IH]; simpl; [constructor|].
  destruct (p c) eqn:E; constructor; auto.
Qed.

Lemma word_after_should_word (s w : str) :
  Spec.word_after_should s = Some w ->
  Forall (fun c => isword c = true) w.
Proof.
  induction s as [|a s IH]; cbn [Spec.word_after_should];
    destruct (Spec.word_after_should_here _) as [v|] eqn:E;
    try discriminate; try exact IH;
    intros [= <-]; unfold Spec.word_after_should_here in E;
    destruct (strip_prefix _ _) as [rest|]; try discriminate;
    destruct (Spec.take_while isspace rest); try discriminate;
    pose proof (take_while_Forall isword (Spec.drop_while isspace rest))
      as Hw;
    destruct (Spec.take_while isword _); try discriminate;
    injection E as <-; exact Hw.
Qed.

Lemma clean_char_word (c : ascii) :
  isword c = true -> Spec.clean_char c = c.
Proof.
  destruct c as [[] [] [] [] [] [] [] []]; vm_compute;
    solve [reflexivity | discriminate].
Qed.

(** X5.  The feature that [parse_requirement] returns is one non-empty
    word (letters, digits, underscores), so the generated function name
    carries it unchanged right after "test_". *)
Theorem parsed_feature_is_word (requirement_text : str) :
  exists f,
    (parse_requirement requirement_text).(feature) = Some f
    /\ f <> []
    /\ Forall (fun c => isword c = true) f
    /\ forall conditions,
         exists suffix,
           Generator._generate_test_name f conditions
           = "test_" ++ f ++ suffix.
Proof.
  set (text := strip (lower requirement_text)).
  exists (_extract_feature text). split; [reflexivity|].
  assert (Hword : Forall (fun c => isword c = true) (_extract_feature text)).
  { pose proof (extract_feature_cases text) as Hcase. cbv zeta in Hcase.
    destruct Hcase as [(before & after & Hv & _)|[[_ Hw]|(_ & _ & Hu)]].
    - assert (Hall : Forall (fun w : str => Forall (fun c => isword c = true) w)
                       Spec.vocabulary) by (repeat constructor).
      rewrite Forall_forall in Hall. apply Hall. rewrite Hv. apply in_elt.
    - eapply word_after_should_word; eauto.
    - rewrite Hu. repeat constructor. }
  split; [|split; [exact Hword|]].
  - destruct (parse_feature_conditions_nonempty requirement_text)
      as (f & cs & [= <-] & _ & Hf & _). exact Hf.
  - intros conditions. unfold Generator._generate_test_name.
    rewrite replace_space_hyphen.
    replace (map Spec.clean_char (_extract_feature text))
      with (_extract_feature text).
    + eexists. reflexivity.
    + symmetry. rewrite <- (map_id (_extract_feature text)) at 2.
      apply map_ext_in. intros c Hc. apply clean_char_word.
      rewrite Forall_forall in Hword. now apply Hword.
Qed.

(** ** requirements_parser.py: loading requirements *)

Import RequirementsFile.

Lemma universal_newlines_no_cr (s : str) :
  Forall (fun c => c <> CR) (universal_newlines s).
Proof.
  assert (Hnl : newline <> CR) by discriminate.
  enough (H : Forall (fun c => c <> CR) (universal_newlines s)
              /\ forall c, Forall (fun c => c <> CR)
                             (universal_newlines (c :: s))) by tauto.
  induction s as [|d s [IH1 IH2]].
  - split; [constructor|]. intros c. cbn [universal_newlines].
    destruct (Ascii.eqb c CR) eqn:E; repeat constructor; auto.
    now apply Ascii.eqb_neq.
  - split; [apply IH2|]. intros c.
    change (universal_newlines (c :: d :: s))
      with (if Ascii.eqb c CR
            then if Ascii.eqb d newline
                 then newline :: universal_newlines s
                 else newline :: universal_newlines (d :: s)
            else c :: universal_newlines (d :: s)).
    destruct (Ascii.eqb c CR) eqn:E.
    + destruct (Ascii.eqb d newline); constructor; auto.
    + constructor; [now apply Ascii.eqb_neq|auto].
Qed.

Lemma universal_newlines_fixed (s : str) :
  ~ In CR s -> universal_newlines s = s.
Proof.
  induction s as [|c s IH]; simpl; [reflexivity|]. intros H.
  destruct (Ascii.eqb c CR) eqn:E.
  - apply Ascii.eqb_eq in E. tauto.
  - rewrite IH by tauto. reflexivity.
Qed.

(** A line is free of line feeds, but for the one that may end it. *)
Lemma lines_of_shape (P : ascii -> Prop) (s : str) :
  Forall P s ->
  Forall (fun l => Forall P l
                   /\ exists body, ~ In newline body
                        /\ (l = body \/ l = body ++ [newline]))
    (lines_of s).
Proof.
  induction 1 as [|c s Hc Hs IH]; simpl; [constructor|].
  destruct (Ascii.eqb c newline) eqn:E.
  - apply Ascii.eqb_eq in E. subst c. constructor; [|exact IH].
    split; [repeat constructor; exact Hc|].
    exists []. split; [intros []|right; reflexivity].
  - apply Ascii.eqb_neq in E.
    destruct (lines_of s) as [|l ls].
    + repeat constructor; auto. exists [c]. split; [|now left].
      intros [H|[]]. congruence.
    + inversion IH as [|? ? [Hl (body & Hb & Hshape)] Hls]; subst.
      constructor; [|exact Hls]. split; [now constructor|].
      exists (c :: body). split.
      * intros [H|H]; [congruence|tauto].
      * destruct Hshape as [->| ->]; [now left|now right].
Qed.

Lemma lstrip_length (s : str) : List.length (lstrip s) <= List.length s.
Proof.
  induction s as [|c s IH]; simpl; [lia|].
  destruct (isspace c); simpl; lia.
Qed.

Lemma strip_last_not_space (s x : str) (c : ascii) :
  strip s = x ++ [c] -> isspace c = false.
Proof.
  intros H. destruct (strip_ends s) as [_ Hrev].
  rewrite H, rev_app_distr in Hrev. simpl in Hrev.
  destruct (isspace c) eqn:E; [|reflexivity].
  apply (f_equal (@List.length ascii)) in Hrev.
  pose proof (lstrip_length (rev x)). simpl in Hrev. lia.
Qed.

Lemma strip_line_no_newline (l body : str) :
  ~ In newline body -> l = body \/ l = body ++ [newline] ->
  ~ In newline (strip l).
Proof.
  intros Hbody Hl Hin.
  destruct (strip_decompose l) as (a & b & Hdec & _).
  apply in_split in Hin as (x & y & Hxy).
  destruct (exists_last (l := newline :: y ++ b)) as (v & e & Hv);
    [discriminate|].
  assert (Hsplit : l = (a ++ x) ++ newline :: y ++ b).
  { rewrite Hdec, Hxy. now rewrite <- !app_assoc. }
  destruct Hl as [->| ->].
  - apply Hbody. rewrite Hsplit. apply in_elt.
  - destruct y as [|d y]; [|].
    + apply strip_last_not_space in Hxy. discriminate.
    + destruct (exists_last (l := d :: y ++ b)) as (v' & e' & Hv');
        [discriminate|].
      change (newline :: (d :: y) ++ b) with (newline :: d :: y ++ b)
        in Hsplit.
      rewrite Hv' in Hsplit.
      change ((a ++ x) ++ newline :: v' ++ [e'])
        with ((a ++ x) ++ (newline :: v') ++ [e']) in Hsplit.
      rewrite app_assoc in Hsplit. apply app_inj_tail in Hsplit as [Hb _].
      apply Hbody. rewrite Hb. apply in_or_app. right. now left.
Qed.

Lemma loaded_requirements_clean_aux (fs : Generator.store)
  (filename : str) :
  match load_requirements_from_file fs filename with
  | Some requirements =>
      Generator.store_get filename fs <> None
      /\ Forall (fun r => r <> [] /\ strip r = r
                          /\ ~ In newline r /\ ~ In CR r) requirements
  | None => Generator.store_get filename fs = None
  end.
Proof.
  unfold load_requirements_from_file.
  destruct (Generator.store_get filename fs) as [content|];
    [|reflexivity].
  split; [discriminate|]. unfold stripped_lines.
  apply Forall_forall. intros r Hr.
  apply in_map_iff in Hr as (line & <- & Hline).
  apply filter_In in Hline as [Hline Hne].
  pose proof (@lines_of_shape _ _ (universal_newlines_no_cr content)) as Hshape.
  rewrite Forall_forall in Hshape.
  destruct (Hshape line Hline) as (Hcr & body & Hbody & Hl).
  repeat split.
  - destruct (strip line); [discriminate|discriminate].
  - apply strip_idem.
  - eapply strip_line_no_newline; eauto.
  - apply strip_Forall in Hcr.
    rewrite Forall_forall in Hcr. intros Hin. now apply (Hcr CR).
Qed.

(** X6.  What [load_requirements_from_file] returns for a file that
    exists: requirements that are non-empty, have no white space at
    either end, and hold neither a line feed nor a carriage return; with
    no such file it fails. *)
Theorem loaded_requirements_clean (fs : Generator.store)
  (filename : str) :
  match load_requirements_from_file fs filename with
  | Some requirements =>
      Generator.store_get filename fs <> None
      /\ Forall (fun r => r <> [] /\ strip r = r
                          /\ ~ In newline r /\ ~ In CR r) requirements
  | None => Generator.store_get filename fs = None
  end.
Proof. apply loaded_requirements_clean_aux. Qed.

Lemma lines_of_line (r rest : str) :
  ~ In newline r ->
  lines_of (r ++ [newline] ++ rest) = (r ++ [newline]) :: lines_of rest.
Proof.
  induction r as [|c r IH]; intros H.
  - reflexivity.
  - cbn [app lines_of]. destruct (Ascii.eqb c newline) eqn:E.
    + apply Ascii.eqb_eq in E. subst c. simpl in H. tauto.
    + cbn [app] in IH. rewrite IH by (simpl in H; tauto). reflexivity.
Qed.

Lemma strip_line (r : str) :
  r <> [] -> strip r = r -> strip (r ++ [newline]) = r.
Proof.
  intros Hne Hr. destruct (strip_ends r) as [H1 H2].
  rewrite Hr in H1, H2. unfold strip, rstrip.
  destruct r as [|c t]; [congruence|].
  assert (Hc : isspace c = false) by (eapply lstrip_head; eauto).
  cbn [app lstrip]. rewrite Hc.
  change (c :: t ++ [newline]) with ((c :: t) ++ [newline]).
  rewrite rev_app_distr. cbn [rev app lstrip].
  change (isspace newline) with true. cbn iota.
  change (rev t ++ [c]) with (rev (c :: t)).
  rewrite H2. apply rev_involutive.
Qed.

(** X7.  A file that holds one requirement per line is loaded as those
    requirements, in order, when each is non-empty, has no white space at
    either end and holds no line break. *)
Theorem load_one_per_line (fs : Generator.store) (filename : str)
  (requirements : list str)
  (Hclean : Forall (fun r => r <> [] /\ strip r = r
                             /\ ~ In newline r /\ ~ In CR r) requirements)
  (Hfile : Generator.store_get filename fs
           = Some (List.concat (map (fun r => r ++ [newline]) requirements))) :
  load_requirements_from_file fs filename = Some requirements.
Proof.
  unfold load_requirements_from_file. rewrite Hfile. f_equal.
  rewrite universal_newlines_fixed.
  2:{ intros Hin. apply in_concat in Hin as (l & Hl & Hc).
      apply in_map_iff in Hl as (r & <- & Hr).
      rewrite Forall_forall in Hclean.
      destruct (Hclean r Hr) as (_ & _ & _ & Hcr).
      apply in_app_or in Hc as [Hc|[Hc|[]]]; [tauto|discriminate]. }
  clear Hfile.
  induction Hclean as [|r rs (Hne & Hs & Hnl & Hcr) Hrs IH];
    [reflexivity|].
  cbn [map List.concat]. rewrite <- app_assoc.
  rewrite (@lines_of_line r _ Hnl). unfold stripped_lines in *.
  cbn [filter]. rewrite (@strip_line r Hne Hs).
  destruct r as [|c t]; [congruence|].
  cbn [map]. rewrite (@strip_line (c :: t) Hne Hs). f_equal. exact IH.
Qed.

Lemma load_one_per_line_witness :
  load_requirements_from_file
    [("reqs.txt" : str,
      "Users can login." ++ [newline] ++ "Search works." ++ [newline])]
    "reqs.txt"
  = Some [("Users can login." : str); ("Search works." : str)].
Proof.
  apply (@load_one_per_line
           [("reqs.txt" : str,
             "Users can login." ++ [newline] ++ "Search works."
               ++ [newline])]
           "reqs.txt"
           [("Users can login." : str); ("Search works." : str)]).
  - repeat constructor; try discriminate;
      intros H; vm_compute in H; intuition discriminate.
  - reflexivity.
Defined.

(** ** test_generator.py: synonyms, files and names *)

(** X8.  The synonyms share their template: a requirement whose feature is
    "registration" gets the same text as one whose feature is "register",
    and "validation" the same as "validate", but for the function name on
    the first line. *)
Theorem synonyms_share_template (conditions : option (list str))
  (expected original_text : option str) :
  let generate := fun feature : string =>
    generate_test_from_requirement
      (mkRequirement (Some (feature : str)) conditions expected
         original_text) in
  let header := fun feature : string =>
    unlines ["def " ++ _generate_test_name feature (get conditions [])
             ++ "():"] in
  (exists body,
      generate "registration"%string = header "registration"%string ++ body
      /\ generate "register"%string = header "register"%string ++ body)
  /\ (exists body,
        generate "validation"%string = header "validation"%string ++ body
        /\ generate "validate"%string = header "validate"%string ++ body).
Proof.
  intros generate header. subst generate header.
  unfold generate_test_from_requirement.
  cbn [RequirementsParser.feature RequirementsParser.conditions
       RequirementsParser.expected RequirementsParser.original_text].
  split.
  - change (get (Some ("registration" : str)) ("unknown" : str))
      with ("registration" : str).
    change (get (Some ("register" : str)) ("unknown" : str))
      with ("register" : str).
    set (n1 := _generate_test_name "registration" _).
    set (n2 := _generate_test_name "register" _).
    change (_generate_test_code n1 "registration" ?c ?e ?o)
      with (_generate_register_test n1 c e o).
    change (_generate_test_code n2 "register" ?c ?e ?o)
      with (_generate_register_test n2 c e o).
    unfold _generate_register_test. eexists. split.
    + match goal with |- unlines ?ls = _ =>
        rewrite (unlines_split 1 ls) end. cbn [firstn skipn]. reflexivity.
    + match goal with |- unlines ?ls = _ =>
        rewrite (unlines_split 1 ls) end. cbn [firstn skipn]. reflexivity.
  - change (get (Some ("validation" : str)) ("unknown" : str))
      with ("validation" : str).
    change (get (Some ("validate" : str)) ("unknown" : str))
      with ("validate" : str).
    set (n1 := _generate_test_name "validation" _).
    set (n2 := _generate_test_name "validate" _).
    change (_generate_test_code n1 "validation" ?c ?e ?o)
      with (_generate_validation_test n1 c e o).
    change (_generate_test_code n2 "validate" ?c ?e ?o)
      with (_generate_validation_test n2 c e o).
    unfold _generate_validation_test. eexists. split.
    + match goal with |- unlines ?ls = _ =>
        rewrite (unlines_split 1 ls) end. cbn [firstn skipn]. reflexivity.
    + match goal with |- unlines ?ls = _ =>
        rewrite (unlines_split 1 ls) end. cbn [firstn skipn]. reflexivity.
Qed.

(** X9.  [generate_test_file] returns exactly what it writes: when the
    path it chose can be opened, the file at that path holds the
    returned text and no other file changes; when it cannot, the call
    raises and no file changes.  With a file name the path is that name
    under the output directory and the clock is read once; without one
    the name is made of the time read first, and the clock is read twice;
    the clock is read before the file is opened. *)
Theorem generate_test_file_writes_result
  (strftime_now : nat -> str -> str) (can_open : str -> bool)
  (self : generator) (requirements : list requirement)
  (filename : option str) (w : world) :
  let result :=
    generate_test_file strftime_now can_open self requirements filename w in
  let name :=
    match filename with
    | Some name => name
    | None => "test_generated_"
              ++ strftime_now w.(ticks) "%Y%m%d_%H%M%S" ++ ".py"
    end in
  let path := path_join self.(output_dir) name in
  (if can_open path
   then exists content,
          fst result = inr content
          /\ store_get path (files (snd result)) = Some content
          /\ (forall other, other <> path ->
                store_get other (files (snd result))
                = store_get other w.(files))
   else fst result = inl (OpenFailed path)
        /\ files (snd result) = w.(files))
  /\ ticks (snd result)
     = match filename with
       | Some _ => S w.(ticks)
       | None => S (S w.(ticks))
       end.
Proof.
  intros result name path. subst result name path.
  destruct filename as [name|];
    unfold generate_test_file, Generator.bind, Generator.ret,
      Generator.now_strftime, Generator.write_file;
    cbn [fst snd files ticks];
    match goal with
    | |- context [can_open ?p] => destruct (can_open p)
    end;
    cbn [fst snd files ticks];
    (split; [|reflexivity]);
    try (split; reflexivity);
    (eexists; split; [reflexivity|];
     split; [apply store_get_write_same|];
     intros other Hother; now apply store_get_write_other).
Qed.

Lemma substring_join (sep x : str) (l : list str) :
  In x l -> Spec.substring x (join sep l).
Proof.
  induction l as [|y l IH]; [intros []|].
  intros [->|Hin].
  - destruct l as [|z l].
    + exists [], []. simpl. now rewrite app_nil_r.
    + exists [], (sep ++ join sep (z :: l)). reflexivity.
  - destruct l as [|z l]; [destruct Hin|].
    destruct (IH Hin) as (a & b & Hab).
    exists (y ++ sep ++ a), b.
    change (join sep (y :: z :: l)) with (y ++ sep ++ join sep (z :: l)).
    rewrite Hab. now rewrite <- !app_assoc.
Qed.

(** X10.  The text that [generate_test_file] returns, when it returns,
    holds for every requirement given a test function whose documentation
    block quotes the text, the conditions and the expected outcome of
    that requirement (the defaults for the keys it lacks). *)
Theorem generated_file_quotes_requirements
  (strftime_now : nat -> str -> str) (can_open : str -> bool)
  (self : generator) (requirements : list requirement)
  (filename : option str) (w : world) (content : str)
  (r : requirement) (Hin : In r requirements)
  (Hreturns : fst (generate_test_file strftime_now can_open self
                     requirements filename w) = inr content) :
  exists test_name feature_label,
    Spec.substring
      (unlines ["def " ++ test_name ++ "():"]
       ++ Spec.docstring_block (get r.(original_text) [])
            feature_label (join ", " (get r.(conditions) []))
            (get r.(expected) ("success" : str)))
      content.
Proof.
  assert (Hcontent : exists header,
             content = header ++ join (nl ++ nl)
                         (map generate_test_from_requirement requirements)).
  { revert Hreturns. destruct filename;
      unfold generate_test_file, Generator.bind, Generator.ret,
        Generator.now_strftime, Generator.write_file;
      cbn [fst snd files ticks];
      match goal with
      | |- context [can_open ?p] => destruct (can_open p)
      end;
      cbn [fst]; intros Hret; try congruence;
      match type of Hret with
      | inr (?header ++ _) = _ => exists header; congruence
      end. }
  destruct Hcontent as (header & ->).
  assert (Hj : Spec.substring (generate_test_from_requirement r)
                 (join (nl ++ nl)
                    (map generate_test_from_requirement requirements)))
    by (apply substring_join, in_map, Hin).
  destruct Hj as (a & b & ->).
  unfold generate_test_from_requirement at 1.
  match goal with
  | |- context [_generate_test_code ?n ?f ?c ?e ?o] =>
      destruct (generate_test_code_docstring n f c e o)
        as (label & body & ->); exists n, label
  end.
  exists (header ++ a), (body ++ b). now rewrite <- !app_assoc.
Qed.

Lemma generated_file_quotes_requirements_witness :
  exists content test_name feature_label,
    fst (generate_test_file Samples.clock Samples.flat_directory
           Samples.default_generator
           [parse_requirement Spec.login_sample] None (mkWorld [] 0))
    = inr content
    /\ Spec.substring
         (unlines ["def " ++ test_name ++ "():"]
          ++ Spec.docstring_block Spec.login_sample feature_label
               (join ", " [("username" : str)])
               ("allow login with username and password" : str))
         content.
Proof.
  eassert (Hreturns : fst (generate_test_file Samples.clock
                             Samples.flat_directory
                             Samples.default_generator
                             [parse_requirement Spec.login_sample] None
                             (mkWorld [] 0)) = inr _)
    by (vm_compute; reflexivity).
  destruct (@generated_file_quotes_requirements Samples.clock
              Samples.flat_directory Samples.default_generator
              [parse_requirement Spec.login_sample] None (mkWorld [] 0)
              _ (parse_requirement Spec.login_sample)
              (or_introl eq_refl) Hreturns)
    as (test_name & label & Hquote).
  eexists _, test_name, label. split; [exact Hreturns|exact Hquote].
Defined.

Lemma first_occurrences_length (l seen : list str) :
  List.length (Spec.first_occurrences seen l) <= List.length l.
Proof.
  revert seen. induction l as [|x l IH]; intros seen; simpl; [lia|].
  destruct (mem x seen); [specialize (IH seen)|specialize (IH (seen ++ [x]))];
    simpl; lia.
Qed.

(** X11.  [generate_multiple_files] either returns the paths of the
    files of all the features, in the order the features are first met,
    never more paths than requirements, the clock read once for each
    file; or it stops at the first feature whose file cannot be opened:
    it raises for that path, the files of the features before it are
    written and nothing else is, and the clock has been read once for
    each of them and once more.  For an empty list it returns no path
    and leaves everything as it is. *)
Theorem generate_multiple_files_outcome
  (strftime_now : nat -> str -> str) (can_open : str -> bool)
  (self : generator) (requirements : list requirement) (w : world) :
  let key := fun r : requirement => get r.(feature) ("unknown" : str) in
  let features := Spec.first_occurrences [] (map key requirements) in
  let path := fun f => path_join self.(output_dir) ("test_" ++ f ++ ".py") in
  let result :=
    generate_multiple_files strftime_now can_open self requirements w in
  match fst result with
  | inr paths =>
      paths = map path features
      /\ List.length paths <= List.length requirements
      /\ ticks (snd result) = w.(ticks) + List.length paths
      /\ Forall (fun p => can_open p = true) paths
  | inl (OpenFailed p) =>
      exists done f rest,
        features = done ++ f :: rest
        /\ p = path f /\ can_open p = false
        /\ Forall (fun g => can_open (path g) = true) done
        /\ Forall (fun g => store_get (path g) (files (snd result)) <> None)
             done
        /\ (forall q, ~ In q (map path done) ->
              store_get q (files (snd result)) = store_get q w.(files))
        /\ ticks (snd result) = w.(ticks) + List.length done + 1
  end
  /\ (requirements = [] -> result = (inr [], w)).
Proof.
  intros key features path result.
  split; [|intros ->; reflexivity].
  subst result. unfold generate_multiple_files.
  pose proof (first_occurrences_NoDup (map key requirements) []) as Hnd.
  fold features in Hnd.
  assert (Hkeys : map fst (group_by_feature requirements) = features).
  { pose proof (group_by_feature_closed requirements) as Hg.
    cbv zeta in Hg. rewrite Hg, map_map. cbn [fst]. apply map_id. }
  destruct (first_unopenable can_open self (group_by_feature requirements))
    as [Hall|(done & f & reqs & rest & Hitems & Hdone & Hf)].
  - destruct (@generate_group_files_success strftime_now can_open self _
                Hall [] w) as (w' & -> & Hticks & _).
    cbn [fst snd app]. rewrite Hkeys in *.
    split; [reflexivity|]. rewrite length_map in *.
    split; [|split].
    + etransitivity; [apply first_occurrences_length|].
      now rewrite length_map.
    + rewrite Hticks, <- Hkeys. now rewrite length_map.
    + rewrite <- Hkeys, map_map. apply Forall_forall. intros p Hp.
      apply in_map_iff in Hp as (item & <- & Hitem).
      rewrite Forall_forall in Hall. now apply Hall.
  - rewrite Hitems in *.
    destruct (@generate_group_files_failure strftime_now can_open self
                done rest f reqs Hdone Hf [] w)
      as (w' & -> & Hticks & Hother & Hwritten).
    cbn [fst snd]. exists (map fst done), f, (map fst rest).
    rewrite map_app in Hkeys. cbn [map fst] in Hkeys.
    split; [now rewrite Hkeys|]. split; [reflexivity|].
    split; [exact Hf|].
    assert (Hnd' : NoDup (map fst done)).
    { rewrite <- Hkeys in Hnd. now apply NoDup_app_remove_r in Hnd. }
    split; [|split; [|split]].
    + apply Forall_forall. intros g Hg.
      apply in_map_iff in Hg as (item & <- & Hitem).
      rewrite Forall_forall in Hdone. now apply Hdone.
    + apply Forall_forall. intros g Hg.
      apply in_map_iff in Hg as (item & <- & Hitem).
      specialize (Hwritten Hnd'). rewrite Forall_forall in Hwritten.
      now apply Hwritten.
    + exact Hother.
    + rewrite Hticks. now rewrite length_map.
Qed.

Lemma join_split (sep : ascii) (s : str) : join [sep] (split sep s) = s.
Proof.
  induction s as [|c s IH]; [reflexivity|]. cbn [split].
  destruct (Ascii.eqb c sep) eqn:E.
  - apply Ascii.eqb_eq in E. subst c.
    destruct (split sep s) as [|w ws] eqn:S;
      [now apply split_cons_nonempty in S|].
    change (join [sep] ([] :: w :: ws))
      with ([] ++ [sep] ++ join [sep] (w :: ws)).
    now rewrite IH.
  - destruct (split sep s) as [|w ws] eqn:S;
      [now apply split_cons_nonempty in S|].
    rewrite <- IH. destruct ws; reflexivity.
Qed.

Lemma filter_all (A : Type) (p : A -> bool) (l : list A) :
  Forall (fun x => p x = true) l -> filter p l = l.
Proof.
  induction 1 as [|x l Hx Hl IH]; simpl; [reflexivity|].
  now rewrite Hx, IH.
Qed.

(** X12.  When the first condition, its spaces and hyphens turned into
    underscores, is made of one or two pieces none of which is a stop
    word, the function name is "test_", the cleaned feature, an
    underscore and the cleaned condition. *)
Theorem test_name_short_condition (feature first : str) (rest : list str)
  (Hsentinel : list_eqb (first :: rest) Spec.sentinel = false)
  (Hshort : List.length (split "_" (map Spec.clean_char first)) <= 2)
  (Hwords : Forall (fun w => mem w Spec.stop_words = false)
              (split "_" (map Spec.clean_char first))) :
  _generate_test_name feature (first :: rest)
  = "test_" ++ map Spec.clean_char feature
    ++ "_" ++ map Spec.clean_char first.
Proof.
  unfold _generate_test_name. rewrite !replace_space_hyphen.
  change [("no specific conditions" : str)] with Spec.sentinel.
  rewrite Hsentinel. cbn [negb].
  change stop_words with Spec.stop_words.
  rewrite filter_all.
  2:{ eapply Forall_impl; [|exact Hwords]. intros w Hw. now rewrite Hw. }
  rewrite firstn_all2 by exact Hshort.
  destruct (split "_" (map Spec.clean_char first)) as [|p ps] eqn:S;
    [now apply split_cons_nonempty in S|].
  rewrite <- S. change (join "_" (split "_" ?s))
    with (join ["_"%char] (split "_" s)).
  now rewrite join_split.
Qed.

Lemma test_name_short_condition_witness :
  _generate_test_name "user-login" [("valid email" : str)]
  = ("test_user_login_valid_email" : str).
Proof.
  apply (@test_name_short_condition "user-login" "valid email" []).
  - reflexivity.
  - vm_compute. lia.
  - repeat constructor.
Defined.

(** ** executor.py: what the result records tell *)

Lemma str_of_int_inj (a b : Z) : str_of_int a = str_of_int b -> a = b.
Proof.
  unfold str_of_int. intros H.
  apply (f_equal string_of_list_ascii) in H.
  rewrite !string_of_list_ascii_of_string in H.
  apply (f_equal NilZero.int_of_string) in H.
  assert (Hnil : forall z, Z.to_int z <> Decimal.Pos Decimal.Nil
                           /\ Z.to_int z <> Decimal.Neg Decimal.Nil).
  { intros [|p|p]; simpl; split; try discriminate;
      intros [= Hp]; now apply DecimalPos.Unsigned.to_uint_nonnil in Hp. }
  rewrite !NilZero.isi in H by apply Hnil.
  injection H as H. now apply DecimalZ.to_int_inj.
Qed.

Lemma status_message_inj (a b : Z) :
  _get_status_message a = _get_status_message b -> a = b.
Proof.
  unfold _get_status_message. intros Hsame.
  destruct (Z.eqb_spec a 0), (Z.eqb_spec a 1), (Z.eqb_spec a 5),
    (Z.eqb_spec b 0), (Z.eqb_spec b 1), (Z.eqb_spec b 5);
    try lia; try discriminate Hsame.
  apply app_inv_head in Hsame. now apply str_of_int_inj.
Qed.

(** X13.  The status message tells the exit code: two exit codes with the
    same message are equal. *)
Theorem status_message_injective (a b : Z)
  (Hsame : _get_status_message a = _get_status_message b) : a = b.
Proof. now apply status_message_inj. Qed.

Lemma status_message_injective_witness : (2 + 3 = 5)%Z.
Proof.
  apply (@status_message_injective (2 + 3) 5). reflexivity.
Defined.

(** The records that the three runs return. *)
Lemma run_result_record (self : reporter) (test_files : option (list str))
  (e : env) (d : dict) :
  run_tests_with_html_report self test_files e = ret d
  \/ run_tests_with_allure_report self test_files e = ret d
  \/ run_tests_with_json_report self test_files e = ret d ->
  (exists tag, Spec.complete_record tag d) \/ Spec.error_record d.
Proof.
  unfold run_tests_with_html_report, run_tests_with_allure_report,
    run_tests_with_json_report.
  intros [H|[H|H]]; revert H.
  - destruct (subprocess_run e _ _) as [[m|m|]|result];
      cbn [bind ret raise try_except on_timeout_or_exception];
      intros [= <-]; [error_record|error_record|].
    left. exists ("HTML" : str). eexists _, _, _, _; repeat split; reflexivity.
  - destruct (subprocess_run e _ (Some _)) as [[m|m|]|result];
      cbn [bind ret raise try_except on_timeout_or_exception];
      try (intros [= <-]; error_record); try discriminate.
    destruct (subprocess_run e _ None) as [[m|m|]|allure_result];
      cbn [bind ret raise try_except on_timeout_or_exception];
      intros [= <-]; [error_record|error_record|].
    left. exists ("Allure" : str).
    eexists _, _, _, _; repeat split; reflexivity.
  - destruct (subprocess_run e _ _) as [[m|m|]|result];
      cbn [bind ret raise try_except on_exception];
      try (intros [= <-]; error_record); try discriminate.
    destruct (path_exists e _);
      [destruct (load_json e _) as [[m|m|]|j]|];
      cbn [bind ret raise try_except on_exception];
      try (intros [= <-]; error_record); try discriminate;
      intros [= <-]; left; exists ("JSON" : str);
      eexists _, _, _, _; repeat split; reflexivity.
Qed.

(** X14.  In every record that a run returns, the success flag is true
    exactly when the record carries the message "All tests passed!". *)
Theorem success_iff_all_passed (self : reporter)
  (test_files : option (list str)) (e : env) (d : dict)
  (Hrun : run_tests_with_html_report self test_files e = ret d
          \/ run_tests_with_allure_report self test_files e = ret d
          \/ run_tests_with_json_report self test_files e = ret d) :
  dict_get "success" d = Some (VBool true)
  <-> dict_get "message" d = Some (VStr "🎉 All tests passed!").
Proof.
  apply run_result_record in Hrun
    as [(tag & ts & code & out & err & _ & _ & Hs & _ & _ & _ & Hm)
       |(m & ->)].
  - rewrite Hs, Hm. split.
    + intros [= Hc]. apply Z.eqb_eq in Hc. now subst code.
    + intros [= Hc]. apply (@status_message_inj code 0) in Hc.
      now subst code.
  - split; discriminate.
Qed.

Lemma success_iff_all_passed_witness :
  dict_get "success"
    [ ("timestamp" : str, VStr "2024-01-01T12:00:00");
      ("exit_code" : str, VInt 0); ("success" : str, VBool true);
      ("html_report_path" : str,
        VStr "reports/test_report_20240101_120000.html");
      ("stdout" : str, VStr "1 passed"); ("stderr" : str, VStr []);
      ("report_type" : str, VStr "HTML");
      ("message" : str, VStr "🎉 All tests passed!") ]
  = Some (VBool true)
  <-> dict_get "message"
        [ ("timestamp" : str, VStr "2024-01-01T12:00:00");
          ("exit_code" : str, VInt 0); ("success" : str, VBool true);
          ("html_report_path" : str,
            VStr "reports/test_report_20240101_120000.html");
          ("stdout" : str, VStr "1 passed"); ("stderr" : str, VStr []);
          ("report_type" : str, VStr "HTML");
          ("message" : str, VStr "🎉 All tests passed!") ]
      = Some (VStr "🎉 All tests passed!").
Proof.
  apply (@success_iff_all_passed Spec.default_reporter None
           Samples.passing_env).
  left. reflexivity.
Defined.

(** X15.  A failure after the tests have run hides their outcome: when the
    test run completes, even with exit code 0, but starting the Allure
    tool raises, or the JSON report that exists cannot be loaded, the
    record returned is the error record of that exception, with a false
    success flag. *)
Theorem later_failure_hides_outcome (self : reporter)
  (test_files : option (list str)) (e : env) (result : completed)
  (allure_error load_error : str)
  (Htests : forall cmd, e.(subprocess_run) cmd (Some 300%Z) = ret result)
  (Hallure : forall cmd,
      e.(subprocess_run) cmd None = raise (OtherException allure_error))
  (Hexists : forall path, e.(path_exists) path = true)
  (Hload : forall path,
      e.(load_json) path = raise (OtherException load_error)) :
  run_tests_with_allure_report self test_files e
  = ret [("error" : str, VStr allure_error); ("success" : str, VBool false)]
  /\ run_tests_with_json_report self test_files e
     = ret [("error" : str, VStr load_error); ("success" : str, VBool false)].
Proof.
  unfold run_tests_with_allure_report, run_tests_with_json_report.
  rewrite !Htests. cbn [bind ret]. rewrite Hallure, Hexists.
  cbn [bind ret raise]. rewrite Hload. split; reflexivity.
Qed.

Lemma later_failure_hides_outcome_witness :
  run_tests_with_allure_report Spec.default_reporter None
    Samples.passing_env
  = ret [("error" : str, VStr "No such file or directory: 'allure'");
         ("success" : str, VBool false)]
  /\ run_tests_with_json_report Spec.default_reporter None
       Samples.passing_env
     = ret [("error" : str, VStr "Expecting value");
            ("success" : str, VBool false)].
Proof.
  apply (@later_failure_hides_outcome Spec.default_reporter None
           Samples.passing_env (mkCompleted 0 "1 passed" [])
           "No such file or directory: 'allure'" "Expecting value");
    intros; reflexivity.
Defined.

(** X16.  In the Allure run the outcome is that of the tests alone: when
    both processes end, the exit code, the success flag and the message
    of the record are those of the test run, whatever the exit code of
    the Allure tool, which only decides the report directory (none when
    it is not 0) and the flag of the report generation. *)
Theorem allure_outcome_is_tests (self : reporter)
  (test_files : option (list str)) (e : env)
  (result allure_result : completed)
  (Htests : forall cmd, e.(subprocess_run) cmd (Some 300%Z) = ret result)
  (Hallure : forall cmd, e.(subprocess_run) cmd None = ret allure_result) :
  exists d,
    run_tests_with_allure_report self test_files e = ret d
    /\ dict_get "exit_code" d = Some (VInt result.(returncode))
    /\ dict_get "success" d = Some (VBool (result.(returncode) =? 0)%Z)
    /\ dict_get "message" d
       = Some (VStr (_get_status_message result.(returncode)))
    /\ dict_get "allure_generation_success" d
       = Some (VBool (allure_result.(returncode) =? 0)%Z)
    /\ (allure_result.(returncode) <> 0%Z ->
        dict_get "allure_report_dir" d = Some VNone).
Proof.
  unfold run_tests_with_allure_report.
  rewrite Htests. cbn [bind ret]. rewrite Hallure. cbn [bind ret try_except].
  eexists. split; [reflexivity|]. repeat split.
  intros Hne. apply Z.eqb_neq in Hne.
  cbn [dict_get str_eqb list_ascii_of_string Ascii.eqb Bool.eqb andb].
  now rewrite Hne.
Qed.

Lemma allure_outcome_is_tests_witness :
  exists d,
    run_tests_with_allure_report Spec.default_reporter None
      Samples.allure_failing_env = ret d
    /\ dict_get "exit_code" d = Some (VInt 0)
    /\ dict_get "success" d = Some (VBool true)
    /\ dict_get "message" d = Some (VStr (_get_status_message 0))
    /\ dict_get "allure_generation_success" d = Some (VBool false)
    /\ ((1 <> 0)%Z -> dict_get "allure_report_dir" d = Some VNone).
Proof.
  apply (@allure_outcome_is_tests Spec.default_reporter None
           Samples.allure_failing_env (mkCompleted 0 "1 passed" [])
           (mkCompleted 1 [] "allure: bad results"));
    intros; reflexivity.
Defined.

(** ** executor.py: the console report and the suggestions *)

Import ConsoleReport.

(** X17.  The console report never shows the error text: for an error
    record it is produced without raising and is the report of a record
    that holds nothing but a false success flag; it reads "Success: No"
    and "Exit Code: N/A". *)
Theorem console_report_hides_error (json_truthy : json -> bool)
  (json_format : json -> str) (json_summary : json -> py (option (list str)))
  (d : dict) (Herror : Spec.error_record d) :
  exists text,
    generate_console_report json_truthy json_format json_summary d
    = ret text
    /\ generate_console_report json_truthy json_format json_summary
         [("success" : str, VBool false)] = ret text
    /\ contains "Success: No" text = true
    /\ contains "Exit Code: N/A" text = true.
Proof.
  destruct Herror as (message & ->).
  eexists. split; [reflexivity|]. split; [reflexivity|].
  split; vm_compute; reflexivity.
Qed.

Lemma console_report_hides_error_witness :
  exists text,
    generate_console_report Samples.no_json_truthy Samples.no_json_format
      Samples.no_json_summary
      [("error" : str, VStr "Test execution timed out");
       ("success" : str, VBool false)]
    = ret text
    /\ generate_console_report Samples.no_json_truthy
         Samples.no_json_format Samples.no_json_summary
         [("success" : str, VBool false)] = ret text
    /\ contains "Success: No" text = true
    /\ contains "Exit Code: N/A" text = true.
Proof.
  apply (@console_report_hides_error Samples.no_json_truthy
           Samples.no_json_format Samples.no_json_summary
           [("error" : str, VStr "Test execution timed out");
            ("success" : str, VBool false)]).
  exists ("Test execution timed out" : str). reflexivity.
Defined.

Lemma join_frame (sep x m y : str) (lines rest : list str) :
  lines = x :: m :: rest ->
  join sep (lines ++ [y])
  = x ++ sep ++ join sep (m :: rest) ++ sep ++ y.
Proof.
  intros ->.
  change (join sep ((x :: m :: rest) ++ [y]))
    with (x ++ sep ++ join sep ((m :: rest) ++ [y])).
  do 2 f_equal. revert m. induction rest as [|n rest IH]; intros m.
  - reflexivity.
  - change (join sep ((m :: n :: rest) ++ [y]))
      with (m ++ sep ++ join sep ((n :: rest) ++ [y])).
    rewrite IH.
    change (join sep (m :: n :: rest))
      with (m ++ sep ++ join sep (n :: rest)).
    now rewrite <- !app_assoc.
Qed.

(** X18.  When the summary block does not raise (it cannot when the
    record has no "json_data"), the console report is produced; it opens
    with the banner line, closes with the rule of 64 "=" signs, and says
    "Success: Yes" or "Success: No" as the success value of the record is
    true or not. *)
Theorem console_report_frame (json_truthy : json -> bool)
  (json_format : json -> str) (json_summary : json -> py (option (list str)))
  (d : dict) (summary : list str)
  (Hsummary : summary_block json_summary d = ret summary) :
  exists body,
    generate_console_report json_truthy json_format json_summary d
    = ret ("🚀 " ++ repeat "="%char 60 ++ [newline] ++ body ++ [newline]
           ++ repeat "="%char 64)
    /\ Spec.substring
         ("✅ Success: "
          ++ (if truthy json_truthy (dict_get "success" d)
              then "Yes" else "No"))
         body.
Proof.
  unfold generate_console_report. rewrite Hsummary. cbn [bind ret].
  destruct (truthy json_truthy (dict_get "message" d));
    change [[]; repeat "="%char 64] with ([[]] ++ [repeat "="%char 64]);
    rewrite (app_assoc _ [[]] [repeat "="%char 64]);
    (erewrite join_frame; [|reflexivity]);
    rewrite <- !app_assoc;
    (eexists; split; [reflexivity|]);
    apply substring_join; do 4 right; left; reflexivity.
Qed.

Lemma console_report_frame_witness :
  exists body,
    generate_console_report Samples.no_json_truthy Samples.no_json_format
      Samples.no_json_summary
      [("success" : str, VBool true); ("report_type" : str, VStr "HTML")]
    = ret ("🚀 " ++ repeat "="%char 60 ++ [newline] ++ body ++ [newline]
           ++ repeat "="%char 64)
    /\ Spec.substring ("✅ Success: " ++ "Yes") body.
Proof.
  apply (@console_report_frame Samples.no_json_truthy
           Samples.no_json_format Samples.no_json_summary
           [("success" : str, VBool true);
            ("report_type" : str, VStr "HTML")] []).
  reflexivity.
Defined.

(** X19.  The suggestions follow the record: an error record gets the
    four suggestions for a failed run and no hint about a report; a
    complete record gets four suggestions and, when its report type is
    HTML or Allure, a fifth about that report. *)
Theorem suggestions_follow_record (json_truthy : json -> bool) (d : dict) :
  (Spec.error_record d ->
   suggest_improvements json_truthy d
   = [ "🔧 Review failed tests and fix issues" : str;
       "📝 Check test data and assertions" : str;
       "🐛 Look for common patterns in failures" : str;
       "🚀 Consider test parallelization for faster feedback" : str ])
  /\ (forall tag, Spec.complete_record tag d ->
        List.length (suggest_improvements json_truthy d)
        = if str_eqb tag "HTML" || str_eqb tag "Allure" then 5 else 4).
Proof.
  split.
  - intros (message & ->). reflexivity.
  - intros tag (ts & code & out & err & _ & _ & _ & _ & _ & Htag & _).
    unfold suggest_improvements, report_type_is. rewrite Htag.
    destruct (truthy json_truthy (dict_get "success" d));
      destruct (str_eqb tag "HTML"); cbn [orb];
      try rewrite length_app; try reflexivity;
      destruct (str_eqb tag "Allure");
      try rewrite length_app; reflexivity.
Qed.

(** ** From the file to the parsed batch, and the condition behind a name *)

Lemma lstrip_lower (s : str) : lstrip (lower s) = lower (lstrip s).
Proof.
  induction s as [|c s IH]; [reflexivity|].
  cbn [lower map lstrip]. rewrite isspace_lower_char.
  destruct (isspace c); [exact IH|reflexivity].
Qed.

Lemma strip_lower (s : str) : strip (lower s) = lower (strip s).
Proof.
  unfold strip, rstrip. rewrite lstrip_lower.
  unfold lower at 1. rewrite <- map_rev. fold (lower (rev (lstrip s))).
  rewrite lstrip_lower. unfold lower. now rewrite map_rev.
Qed.

(** X20.  Requirements loaded from a file and parsed as a batch come back
    in order with their text kept, and since a loaded requirement has no
    white space around it, the text that the parser examines is just its
    lower-cased form. *)
Theorem loaded_batch_parsed (fs : Generator.store) (filename : str)
  (requirements : list str)
  (Hload : load_requirements_from_file fs filename = Some requirements) :
  map original_text (parse_multiple_requirements requirements)
  = map Some requirements
  /\ Forall (fun r => strip (lower r) = lower r) requirements.
Proof.
  split.
  - unfold parse_multiple_requirements. rewrite map_map.
    apply map_ext. reflexivity.
  - pose proof (loaded_requirements_clean_aux fs filename) as Hclean.
    rewrite Hload in Hclean. destruct Hclean as [_ Hclean].
    eapply Forall_impl; [|exact Hclean].
    intros r (_ & Hs & _). now rewrite strip_lower, Hs.
Qed.

Lemma loaded_batch_parsed_witness :
  map original_text
    (parse_multiple_requirements
       [("Users can login." : str); ("Search works." : str)])
  = map Some [("Users can login." : str); ("Search works." : str)]
  /\ Forall (fun r => strip (lower r) = lower r)
       [("Users can login." : str); ("Search works." : str)].
Proof.
  apply (@loaded_batch_parsed
           [("reqs.txt" : str,
             "Users can login." ++ [newline] ++ [newline]
               ++ "  Search works.  " ++ [newline])]
           "reqs.txt").
  vm_compute. reflexivity.
Defined.

(** X21.  The function name looks at the first condition only: two lists
    of conditions with the same first element give the same name, unless
    one of them is the sentinel list itself. *)
Theorem test_name_first_condition_only (feature first : str)
  (rest1 rest2 : list str)
  (Hsentinel : first <> "no specific conditions"
               \/ (rest1 <> [] /\ rest2 <> [])) :
  _generate_test_name feature (first :: rest1)
  = _generate_test_name feature (first :: rest2).
Proof.
  unfold _generate_test_name.
  assert (Hne : forall rest,
             first <> "no specific conditions" \/ rest <> [] ->
             list_eqb (first :: rest) [("no specific conditions" : str)]
             = false).
  { intros rest H. cbn [list_eqb]. apply andb_false_iff.
    destruct H as [H|H].
    - left. now apply str_eqb_neq.
    - right. destruct rest; [congruence|reflexivity]. }
  rewrite !Hne by tauto. reflexivity.
Qed.

Lemma test_name_first_condition_only_witness :
  _generate_test_name "login" [("valid email" : str); ("password" : str)]
  = _generate_test_name "login" [("valid email" : str)].
Proof.
  apply (@test_name_first_condition_only "login" "valid email"
           [("password" : str)] []).
  left. discriminate.
Defined.
